(** * Community-Loan-Fund: settings store, settings handlers and login handler

    A shallow embedding of [utils/app_settings.py], [utils/responses.py],
    [utils/schema_validator.py], the settings part of [utils/schemas.py],
    [handlers/settings.py] and [handlers/login.py], with the properties the
    specification states about them. *)

From stdpp Require Import base option list strings gmap fin_maps pretty sorting.
From Stdlib Require Import ZArith Lia Ascii String.

Local Open Scope string_scope.
Local Open Scope Z_scope.

(** ** Python values

    The values that travel through the settings store and the JSON bodies:
    booleans, integers, strings and [None].  Non-integral numbers, arrays and
    objects are outside the model. *)

Inductive value :=
  | VBool (b : bool)
  | VInt (z : Z)
  | VStr (s : string)
  | VNone.

Global Instance value_eq_dec : EqDecision value.
Proof. solve_decision. Defined.

(** The Python classes the code names in [isinstance] and [field_type]. *)
Inductive pytype := TBool | TInt | TStr.

Global Instance pytype_eq_dec : EqDecision pytype.
Proof. solve_decision. Defined.

(** [expected_type.__name__] *)
Definition pytype_name (t : pytype) : string :=
  match t with TBool => "bool" | TInt => "int" | TStr => "str" end.

(** [type(value).__name__] *)
Definition type_name (v : value) : string :=
  match v with
  | VBool _ => "bool"
  | VInt _ => "int"
  | VStr _ => "str"
  | VNone => "NoneType"
  end.

(** [isinstance(value, t)]: [bool] is a subclass of [int]. *)
Definition isinstance (v : value) (t : pytype) : bool :=
  match v, t with
  | VBool _, TBool => true
  | VBool _, TInt => true
  | VInt _, TInt => true
  | VStr _, TStr => true
  | _, _ => false
  end.

(** The number a value stands for in arithmetic and ordering ([True] is 1);
    [None] where Python raises [TypeError] against an [int]. *)
Definition as_number (v : value) : option Z :=
  match v with
  | VBool b => Some (if b then 1 else 0)
  | VInt z => Some z
  | _ => None
  end.

(** [a == b] *)
Definition py_eq (a b : value) : bool :=
  match a, b with
  | VStr s, VStr t => bool_decide (s = t)
  | VNone, VNone => true
  | _, _ =>
      match as_number a, as_number b with
      | Some x, Some y => bool_decide (x = y)
      | _, _ => false
      end
  end.

(** [value in values] *)
Definition py_in (v : value) (l : list value) : bool := existsb (py_eq v) l.

(** Truth value of an object in a condition. *)
Definition truthy (v : value) : bool :=
  match v with
  | VBool b => b
  | VInt z => negb (bool_decide (z = 0))
  | VStr s => negb (bool_decide (s = ""))
  | VNone => false
  end.

(** [str(value)], as an f-string renders it. *)
Definition py_str (v : value) : string :=
  match v with
  | VBool b => if b then "True" else "False"
  | VInt z => pretty z
  | VStr s => s
  | VNone => "None"
  end.

(** [sep.join(parts)] *)
Fixpoint join (sep : string) (parts : list string) : string :=
  match parts with
  | [] => ""
  | [p] => p
  | p :: rest => p +:+ sep +:+ join sep rest
  end.

(** [k.startswith('_')] *)
Definition startswith_underscore (k : string) : bool :=
  match k with
  | String c _ => bool_decide (c = "_"%char)
  | EmptyString => false
  end.

(** ** utils/responses.py *)

Record error_obj := {
  code : option string;
  details : option (gmap string string)
}.

Inductive payload :=
  | DataNone
  | DataSettings (m : gmap string value)
  | DataLogin (user_id email role access_token refresh_token : string)
              (expires_in : Z).

(** The response dictionary.  The [headers] entry is the same constant in
    every response and [meta] is always empty here; both are left out. *)
Record response := {
  statusCode : Z;
  success : bool;
  status_code : Z;
  message : string;
  data : payload;
  error : option error_obj
}.

Definition success_response (d : payload) (msg : string) (sc : Z) : response :=
  {| statusCode := sc; success := true; status_code := sc; message := msg;
     data := d; error := None |}.

(** [error_code] and [error_details] are tested for truth: an empty code or
    an empty dictionary is left out, and an empty [error_obj] becomes
    [None]. *)
Definition error_response (msg : string) (sc : Z)
    (error_code : option string)
    (error_details : option (gmap string string)) : response :=
  let c := match error_code with
           | Some c => if bool_decide (c = "") then None else Some c
           | None => None
           end in
  let d := match error_details with
           | Some d => if bool_decide (d = ∅) then None else Some d
           | None => None
           end in
  {| statusCode := sc; success := false; status_code := sc; message := msg;
     data := DataNone;
     error := match c, d with
              | None, None => None
              | _, _ => Some {| code := c; details := d |}
              end |}.

Definition validation_error_response (msg : string)
    (errors : option (gmap string string)) : response :=
  error_response msg 422 (Some "VALIDATION_ERROR") errors.

(** ** utils/app_settings.py *)

Module AppSettings.

(** What a DynamoDB attribute holds once boto3 has read it back: numbers come
    back as [Decimal].  The handlers only write integral numbers. *)
Inductive attr :=
  | ABool (b : bool)
  | ADecimal (d : Z)
  | AString (s : string)
  | ANull.

(** What [put_item] stores for a Python value. *)
Definition to_attr (v : value) : attr :=
  match v with
  | VBool b => ABool b
  | VInt z => ADecimal z
  | VStr s => AString s
  | VNone => ANull
  end.

Record item := {
  setting_value : attr;
  setting_type : string
}.

(** The module's state: the DynamoDB table (keyed by [setting_key]), whether
    the table can be reached, and the two module globals. *)
Record state := {
  settings_table : gmap string item;
  reachable : bool;
  _settings_cache : gmap string value;
  _cache_initialized : bool
}.

(** A call either returns or raises, in both cases leaving a state behind. *)
Inductive outcome :=
  | Returns (s : state)
  | Raises (s : state).

Definition state_of (o : outcome) : state :=
  match o with Returns s => s | Raises s => s end.

Definition DEFAULT_SETTINGS : list (string * value) :=
  [ ("allow_public_signup", VBool true);
    ("allow_adding_new_users", VBool true);
    ("require_otp_on_registration", VBool true);
    ("email_verification_required", VBool true);
    ("default_public_role", VStr "customer");
    ("min_password_length", VInt 4);
    ("max_failed_login_attempts", VInt 5);
    ("account_lockout_duration_minutes", VInt 30);
    ("_version", VStr "1.0");
    ("_initialized", VBool true) ].

(** [DEFAULT_SETTINGS] read as a dictionary. *)
Definition DEFAULT_SETTINGS_dict : gmap string value :=
  list_to_map DEFAULT_SETTINGS.

(** An integral [Decimal] becomes an [int]; anything else is unchanged. *)
Definition _convert_dynamodb_types (a : attr) : value :=
  match a with
  | ABool b => VBool b
  | ADecimal d => VInt d
  | AString s => VStr s
  | ANull => VNone
  end.

(** [settings_table.put_item(Item={...})] on a reachable table. *)
Definition put_item (key : string) (v : value)
    (t : gmap string item) : gmap string item :=
  <[key := {| setting_value := to_attr v; setting_type := type_name v |}]> t.

Definition initialize_settings (s : state) : outcome :=
  if reachable s then
    match settings_table s !! "_initialized" with
    | Some _ => Returns s
    | None =>
        Returns
          {| settings_table :=
               foldl (λ t kv, put_item kv.1 kv.2 t) (settings_table s)
                     DEFAULT_SETTINGS;
             reachable := reachable s;
             _settings_cache := _settings_cache s;
             _cache_initialized := _cache_initialized s |}
    end
  else Raises s.

(** Returns the new state and the dictionary the function returns.  The
    table's key is [setting_key], so the scan yields one item per key. *)
Definition load_settings (s : state) : state * gmap string value :=
  if reachable s then
    let cache :=
      (λ it, _convert_dynamodb_types (setting_value it)) <$> settings_table s in
    ({| settings_table := settings_table s;
        reachable := reachable s;
        _settings_cache := cache;
        _cache_initialized := true |}, cache)
  else (s, DEFAULT_SETTINGS_dict).

Definition get_setting (key : string) (default_ : value)
    (s : state) : state * value :=
  let s1 := if _cache_initialized s then s else (load_settings s).1 in
  let v := default default_ (_settings_cache s1 !! key) in
  let v := match v, DEFAULT_SETTINGS_dict !! key with
           | VNone, Some d => d
           | _, _ => v
           end in
  (s1, v).

Definition get_all_settings (s : state) : state * gmap string value :=
  let s1 := if _cache_initialized s then s else (load_settings s).1 in
  (s1, _settings_cache s1).

Definition update_setting (key : string) (v : value) (s : state) : outcome :=
  if reachable s then
    Returns {| settings_table := put_item key v (settings_table s);
               reachable := reachable s;
               _settings_cache := <[key := v]> (_settings_cache s);
               _cache_initialized := _cache_initialized s |}
  else Raises s.

(** [for key, value in settings.items(): update_setting(key, value)]:
    the first call that raises ends the loop.  Whether the table can be
    reached is part of the state and no call changes it, so a batch either
    raises at its first write or writes every pair; a table that fails
    between two writes of one batch is outside this model. *)
Fixpoint update_settings_items (l : list (string * value))
    (s : state) : outcome :=
  match l with
  | [] => Returns s
  | (k, v) :: rest =>
      match update_setting k v s with
      | Returns s1 => update_settings_items rest s1
      | Raises s1 => Raises s1
      end
  end.

Definition update_settings (settings : gmap string value)
    (s : state) : outcome :=
  update_settings_items (map_to_list settings) s.

Definition clear_cache (s : state) : state :=
  {| settings_table := settings_table s;
     reachable := reachable s;
     _settings_cache := ∅;
     _cache_initialized := false |}.

End AppSettings.

(** ** utils/schema_validator.py *)

Module SchemaValidator.

(** The exception [ValidationError(message, details)]. *)
Record ValidationError := {
  ve_message : string;
  ve_details : gmap string string
}.

(** [pattern] carries the expression's text together with the matcher
    [re.match] computes for it; [custom_validator] returns the text of the
    exception it raises, if any. *)
Record SchemaField := {
  field_type : pytype;
  required : bool;
  min_length : option Z;
  max_length : option Z;
  min_value : option Z;
  max_value : option Z;
  allowed_values : option (list value);
  pattern : option (string * (string → bool));
  custom_validator : option (value → option string)
}.

Definition raise_field (msg field_name detail : string) : option ValidationError :=
  Some {| ve_message := msg; ve_details := {[ field_name := detail ]} |}.

(** The checks run in sequence; the first one that raises ends the call. *)
Definition or_else (a b : option ValidationError) : option ValidationError :=
  match a with Some e => Some e | None => b end.

Definition check_type (f : SchemaField) (field_name : string) (v : value) :=
  if isinstance v (field_type f) then None
  else raise_field ("Invalid type for field '" +:+ field_name +:+ "'") field_name
         ("Expected " +:+ pytype_name (field_type f) +:+ ", got " +:+ type_name v).

Definition check_length (f : SchemaField) (field_name : string) (v : value) :=
  match v with
  | VStr s =>
      let len := Z.of_nat (String.length s) in
      or_else
        match min_length f with
        | Some m =>
            if len <? m then
              raise_field ("Field '" +:+ field_name +:+ "' is too short") field_name
                ("Minimum length is " +:+ pretty m +:+ " characters")
            else None
        | None => None
        end
        match max_length f with
        | Some m =>
            if m <? len then
              raise_field ("Field '" +:+ field_name +:+ "' is too long") field_name
                ("Maximum length is " +:+ pretty m +:+ " characters")
            else None
        | None => None
        end
  | _ => None
  end.

(** [isinstance(value, (int, float))] holds of [int] and of [bool]. *)
Definition check_range (f : SchemaField) (field_name : string) (v : value) :=
  match v, as_number v with
  | VStr _, _ | VNone, _ | _, None => None
  | _, Some n =>
      or_else
        match min_value f with
        | Some m =>
            if n <? m then
              raise_field ("Field '" +:+ field_name +:+ "' value is too small")
                field_name ("Minimum value is " +:+ pretty m)
            else None
        | None => None
        end
        match max_value f with
        | Some m =>
            if m <? n then
              raise_field ("Field '" +:+ field_name +:+ "' value is too large")
                field_name ("Maximum value is " +:+ pretty m)
            else None
        | None => None
        end
  end.

Definition check_allowed (f : SchemaField) (field_name : string) (v : value) :=
  match allowed_values f with
  | Some allowed =>
      if py_in v allowed then None
      else raise_field ("Invalid value for field '" +:+ field_name +:+ "'")
             field_name
             ("Allowed values are: " +:+ join ", " (py_str <$> allowed))
  | None => None
  end.

Definition check_pattern (f : SchemaField) (field_name : string) (v : value) :=
  match pattern f, v with
  | Some (text, matches), VStr s =>
      if matches s then None
      else raise_field
             ("Field '" +:+ field_name +:+ "' does not match required pattern")
             field_name ("Value must match pattern: " +:+ text)
  | _, _ => None
  end.

Definition check_custom (f : SchemaField) (field_name : string) (v : value) :=
  match custom_validator f with
  | Some validator =>
      match validator v with
      | Some e =>
          raise_field
            ("Custom validation failed for field '" +:+ field_name +:+ "'")
            field_name e
      | None => None
      end
  | None => None
  end.

(** [SchemaField.validate]: [None] when the call returns, the exception
    when it raises. *)
Definition SchemaField_validate (f : SchemaField) (field_name : string)
    (v : value) : option ValidationError :=
  or_else (check_type f field_name v)
  (or_else (check_length f field_name v)
  (or_else (check_range f field_name v)
  (or_else (check_allowed f field_name v)
  (or_else (check_pattern f field_name v)
           (check_custom f field_name v))))).

Record Schema := {
  fields : gmap string SchemaField;
  strict : bool
}.

(** A parsed request body: a JSON object, or another JSON value. *)
Inductive json :=
  | JObject (m : gmap string value)
  | JOther (v : value).

(** The three loops of [Schema.validate] over a dictionary [data]. *)
Definition missing_step (data : gmap string value)
    (errors : gmap string string) (kf : string * SchemaField) :=
  if required kf.2 && negb (bool_decide (is_Some (data !! kf.1)))
  then <[kf.1 := "This field is required"]> errors
  else errors.

Definition extra_step (sch : Schema)
    (errors : gmap string string) (kv : string * value) :=
  match fields sch !! kv.1 with
  | None => <[kv.1 := "This field is not allowed"]> errors
  | Some _ => errors
  end.

Definition present_step (sch : Schema)
    (errors : gmap string string) (kv : string * value) :=
  match fields sch !! kv.1 with
  | Some f =>
      match SchemaField_validate f kv.1 kv.2 with
      | Some e => ve_details e ∪ errors
      | None => errors
      end
  | None => errors
  end.

Definition Schema_errors (sch : Schema)
    (data : gmap string value) : gmap string string :=
  let errors := foldl (missing_step data) ∅ (map_to_list (fields sch)) in
  let errors :=
    if strict sch then foldl (extra_step sch) errors (map_to_list data)
    else errors in
  foldl (present_step sch) errors (map_to_list data).

(** What the loops leave in [errors] under a key that is present in the
    data, read off the loop bodies: the entry depends on that key's own
    value only. *)
Definition field_error (sch : Schema) (k : string) (v : value) : option string :=
  match fields sch !! k with
  | None => if strict sch then Some "This field is not allowed" else None
  | Some f =>
      match SchemaField_validate f k v with
      | Some e => ve_details e !! k
      | None => None
      end
  end.

(** [Schema.validate]: [None] when [data] is returned, the exception
    otherwise. *)
Definition Schema_validate (sch : Schema) (body : json) : option ValidationError :=
  match body with
  | JOther v =>
      Some {| ve_message := "Request body must be a JSON object";
              ve_details :=
                {[ "body" := "Expected object, got " +:+ type_name v ]} |}
  | JObject data =>
      let errors := Schema_errors sch data in
      if bool_decide (errors = ∅) then None
      else Some {| ve_message := "Validation failed"; ve_details := errors |}
  end.

(** The decorator [validate_request_body(schema)] around a handler [func]
    that works on a state of type [S], from the point where [json.loads] has
    been given a string: [None] stands for a string that is not JSON
    ([JSONDecodeError]), [Some b] for what the string parses to. *)
Definition validate_request_body {S : Type} (sch : Schema)
    (func : json → S → S * response)
    (body : option json) (s : S) : S * response :=
  match body with
  | None =>
      (s, error_response "Invalid JSON in request body" 400
            (Some "INVALID_JSON") None)
  | Some b =>
      match Schema_validate sch b with
      | Some e =>
          (s, error_response (ve_message e) 400 (Some "VALIDATION_ERROR")
                (Some (ve_details e)))
      | None => func b s
      end
  end.

(** What [event.get('body', '{}')] hands to [json.loads]: the default
    ['{}'] when the event has no [body] key, [None] when the event carries
    [body: None], or a string, which [json.loads] parses or rejects. *)
Inductive event_body :=
  | BodyAbsent
  | BodyNone
  | BodyText (parsed : option json).

(** A call of the decorated function answers, or lets the [TypeError] of
    [json.loads(None)] escape: the wrapper catches [JSONDecodeError] only. *)
Inductive call (S : Type) :=
  | Answers (s : S) (r : response)
  | RaisesTypeError (s : S).
Arguments Answers {S} s r.
Arguments RaisesTypeError {S} s.

(** The [wrapper(event, context)] the decorator returns. *)
Definition wrapper {S : Type} (sch : Schema)
    (func : json → S → S * response)
    (body : event_body) (s : S) : call S :=
  match body with
  | BodyNone => RaisesTypeError s
  | BodyAbsent =>
      let r := validate_request_body sch func (Some (JObject ∅)) s in
      Answers r.1 r.2
  | BodyText parsed =>
      let r := validate_request_body sch func parsed s in
      Answers r.1 r.2
  end.

End SchemaValidator.

(** ** utils/schemas.py (settings) and handlers/settings.py

    [VALID_ROLES] comes from [config/permissions.py]; the handlers are taken
    for an arbitrary list of role names.  The decorator [require_auth] runs
    before everything modelled here: the request is the master's. *)

Module SettingsHandlers.
Import AppSettings SchemaValidator.

Section with_roles.

Variable VALID_ROLES : list string.

Definition plain_field (t : pytype) : SchemaField :=
  {| field_type := t; required := false;
     min_length := None; max_length := None;
     min_value := None; max_value := None;
     allowed_values := None; pattern := None; custom_validator := None |}.

Definition ranged_field (lo hi : Z) : SchemaField :=
  {| field_type := TInt; required := false;
     min_length := None; max_length := None;
     min_value := Some lo; max_value := Some hi;
     allowed_values := None; pattern := None; custom_validator := None |}.

Definition role_field : SchemaField :=
  {| field_type := TStr; required := false;
     min_length := None; max_length := None;
     min_value := None; max_value := None;
     allowed_values := Some (VStr <$> VALID_ROLES);
     pattern := None; custom_validator := None |}.

Definition update_settings_fields : list (string * SchemaField) :=
  [ ("allow_public_signup", plain_field TBool);
    ("allow_adding_new_users", plain_field TBool);
    ("require_otp_on_registration", plain_field TBool);
    ("email_verification_required", plain_field TBool);
    ("default_public_role", role_field);
    ("min_password_length", ranged_field 4 128);
    ("max_failed_login_attempts", ranged_field 1 100);
    ("account_lockout_duration_minutes", ranged_field 0 10080) ].

Definition update_settings_schema : Schema :=
  {| fields := list_to_map update_settings_fields; strict := true |}.

Definition ALLOWED_SETTINGS_list : list (string * pytype) :=
  [ ("allow_public_signup", TBool);
    ("allow_adding_new_users", TBool);
    ("require_otp_on_registration", TBool);
    ("email_verification_required", TBool);
    ("default_public_role", TStr);
    ("min_password_length", TInt);
    ("max_failed_login_attempts", TInt);
    ("account_lockout_duration_minutes", TInt) ].

Definition ALLOWED_SETTINGS : gmap string pytype :=
  list_to_map ALLOWED_SETTINGS_list.

(** GET /settings *)
Definition get_settings (s : state) : state * response :=
  let '(s1, settings) := get_all_settings s in
  let public_settings :=
    filter (λ kv : string * value, negb (startswith_underscore kv.1)) settings in
  (s1, success_response (DataSettings public_settings) "Success" 200).

(** One of the handler's per-setting range blocks: [value < lo] and
    [value > hi] for the setting called [name].  The type check has already
    passed, so the value is a number. *)
Definition range_block (name : string) (lo hi : Z) (too_small too_large : string)
    (key : string) (v : value) : option string :=
  if bool_decide (key = name) then
    match as_number v with
    | Some n => if n <? lo then Some too_small
                else if hi <? n then Some too_large
                else None
    | None => None
    end
  else None.

Definition role_block (key : string) (v : value) : option string :=
  if bool_decide (key = "default_public_role") then
    if py_in v (VStr <$> VALID_ROLES) then None
    else Some ("Invalid role. Must be one of: " +:+ join ", " VALID_ROLES)
  else None.

Definition first_error (a b : option string) : option string :=
  match a with Some e => Some e | None => b end.

(** The body of the handler's loop for one [key, value]: the text stored
    in [errors[key]], or [None] when the setting is valid. *)
Definition check_setting (key : string) (v : value) : option string :=
  match ALLOWED_SETTINGS !! key with
  | None => Some ("Unknown setting: " +:+ key)
  | Some expected_type =>
      if negb (isinstance v expected_type) then
        Some ("Invalid type. Expected " +:+ pytype_name expected_type
              +:+ ", got " +:+ type_name v)
      else
        first_error
          (range_block "min_password_length" 4 128
             "Minimum password length must be at least 4"
             "Minimum password length cannot exceed 128" key v)
        (first_error
          (range_block "max_failed_login_attempts" 1 100
             "Maximum failed login attempts must be at least 1"
             "Maximum failed login attempts cannot exceed 100" key v)
        (first_error
          (range_block "account_lockout_duration_minutes" 0 10080
             "Account lockout duration cannot be negative (use 0 for permanent lock)"
             "Account lockout duration cannot exceed 10080 minutes (7 days)" key v)
          (role_block key v)))
  end.

Definition validate_step
    (acc : gmap string string * gmap string value) (kv : string * value) :=
  match check_setting kv.1 kv.2 with
  | Some e => (<[kv.1 := e]> acc.1, acc.2)
  | None => (acc.1, <[kv.1 := kv.2]> acc.2)
  end.

Definition read_back_step
    (acc : state * gmap string value) (kv : string * value) :=
  let '(s1, v) := get_setting kv.1 VNone acc.1 in
  (s1, <[kv.1 := v]> acc.2).

(** PUT /settings, the function under the decorators.  A body that is not an
    object has no [items()]: the call raises and the handler answers 500. *)
Definition update_settings_body (body : json) (s : state) : state * response :=
  match body with
  | JOther v =>
      if truthy v
      then (s, error_response "Failed to update settings" 500 None None)
      else (s, validation_error_response "No settings provided" None)
  | JObject body =>
      if bool_decide (body = ∅)
      then (s, validation_error_response "No settings provided" None)
      else
        let '(errors, validated_settings) :=
          foldl validate_step (∅, ∅) (map_to_list body) in
        if negb (bool_decide (errors = ∅))
        then (s, validation_error_response "Validation failed" (Some errors))
        else
          match AppSettings.update_settings validated_settings s with
          | Raises s1 =>
              (s1, error_response "Failed to update settings" 500 None None)
          | Returns s1 =>
              let '(s2, updated_settings) :=
                foldl read_back_step (s1, ∅) (map_to_list validated_settings) in
              (s2, success_response (DataSettings updated_settings)
                     ("Successfully updated "
                      +:+ pretty (Z.of_nat (size updated_settings))
                      +:+ " setting(s)") 200)
          end
  end.

(** PUT /settings as the master calls it. *)
Definition update_settings (body : option json) (s : state) : state * response :=
  validate_request_body update_settings_schema update_settings_body body s.

(** PUT /settings on the event itself, whatever its [body] entry is. *)
Definition update_settings_event (body : event_body) (s : state) : call state :=
  wrapper update_settings_schema update_settings_body body s.

End with_roles.

End SettingsHandlers.

(** ** The stores behind handlers/login.py *)

Module User.

(** Modelled from the spec: the user account of section 3 (identifier,
    email, role, password verifier, [is_verified], [is_locked],
    [failed_login_attempts], nullable [locked_at]); [utils/] holds no
    definition of it.  The identifier is the key of the user store. *)
Record t := {
  email : string;
  password : string;
  role : string;
  is_verified : bool;
  is_locked : bool;
  failed_login_attempts : Z;
  locked_at : option Z
}.

Definition set_failed (n : Z) (u : t) : t :=
  {| email := email u; password := password u; role := role u;
     is_verified := is_verified u; is_locked := is_locked u;
     failed_login_attempts := n; locked_at := locked_at u |}.

Definition set_lock (b : bool) (at_ : option Z) (u : t) : t :=
  {| email := email u; password := password u; role := role u;
     is_verified := is_verified u; is_locked := b;
     failed_login_attempts := failed_login_attempts u; locked_at := at_ |}.

End User.

Module UserDB.

(** Modelled from the spec: [UserDB.get_user_by_email], the user store's
    [GetByEmail(email) -> User | absent] of section 6; the class is not under
    [utils/].  The answer carries the user's identifier. *)
Definition get_user_by_email (email : string)
    (users : gmap string User.t) : option (string * User.t) :=
  head (filter (λ ku : string * User.t, User.email ku.2 = email)
               (map_to_list users)).

(** Modelled from the spec: [UserDB.increment_failed_attempts], the atomic
    [IncrementFailedAttempts(userId) -> newCount] of section 6. *)
Definition increment_failed_attempts (user_id : string)
    (users : gmap string User.t) : gmap string User.t * Z :=
  let n := default 0 (User.failed_login_attempts <$> users !! user_id) + 1 in
  (alter (User.set_failed n) user_id users, n).

(** Modelled from the spec: [UserDB.reset_failed_attempts], section 4.4's
    "reset failed-attempt counter to 0". *)
Definition reset_failed_attempts (user_id : string)
    (users : gmap string User.t) : gmap string User.t :=
  alter (User.set_failed 0) user_id users.

(** Modelled from the spec: [UserDB.lock_account], section 4.4's "set
    [is_locked=true], stamp [locked_at=now]". *)
Definition lock_account (now : Z) (user_id : string)
    (users : gmap string User.t) : gmap string User.t :=
  alter (User.set_lock true (Some now)) user_id users.

(** Modelled from the spec: [UserDB.unlock_account], section 4.4's
    "transition back to Active/Verified with counter reset to 0"; the
    handler mirrors exactly these two fields on its local copy. *)
Definition unlock_account (user_id : string)
    (users : gmap string User.t) : gmap string User.t :=
  alter (λ u, User.set_failed 0 (User.set_lock false (User.locked_at u) u))
        user_id users.

(** Modelled from the spec: [UserDB.should_auto_unlock], section 4.4: never
    when the configured duration is 0, otherwise once
    [now - locked_at >= duration].  Time is counted in seconds and the
    duration in minutes; an account without [locked_at] is not unlocked. *)
Definition should_auto_unlock (now : Z) (user : User.t)
    (account_lockout_duration_minutes : Z) : bool :=
  if 0 <? account_lockout_duration_minutes then
    match User.locked_at user with
    | Some t => account_lockout_duration_minutes * 60 <=? now - t
    | None => false
    end
  else false.

End UserDB.

(** ** handlers/login.py *)

Module Login.
Import AppSettings.

(** Modelled from the spec: the login-attempt record of section 3 (source
    IP, email attempted, success flag). *)
Record attempt := {
  attempt_ip : string;
  attempt_email : string;
  attempt_success : bool
}.

Record refresh_token_data := {
  token : string;
  token_user_id : string;
  created_at : Z;
  expires_at : Z
}.

(** Everything a login request reads and writes. *)
Record world := {
  users : gmap string User.t;
  login_attempts : list attempt;
  refresh_tokens : list refresh_token_data;
  settings : AppSettings.state
}.

Definition with_users (us : gmap string User.t) (w : world) : world :=
  {| users := us; login_attempts := login_attempts w;
     refresh_tokens := refresh_tokens w; settings := settings w |}.

Definition with_settings (st : AppSettings.state) (w : world) : world :=
  {| users := users w; login_attempts := login_attempts w;
     refresh_tokens := refresh_tokens w; settings := st |}.

(** Modelled from the spec: [LoginAttemptDB.record_attempt], the append-only
    [RecordAttempt(ip, email, success)] of section 6. *)
Definition record_attempt (ip_address email : string) (ok : bool)
    (w : world) : world :=
  {| users := users w;
     login_attempts :=
       login_attempts w ++
       [ {| attempt_ip := ip_address; attempt_email := email;
            attempt_success := ok |} ];
     refresh_tokens := refresh_tokens w; settings := settings w |}.

(** Modelled from the spec: [RefreshTokenDB.create_token], the refresh-token
    store's [Create(tokenRecord)] of section 6. *)
Definition create_token (r : refresh_token_data) (w : world) : world :=
  {| users := users w; login_attempts := login_attempts w;
     refresh_tokens := refresh_tokens w ++ [r]; settings := settings w |}.

(** Modelled from the spec: [login_success_response], section 4.5's "composed
    success payload (user projection without the password verifier, access
    token, refresh token, expiry)"; [utils/responses.py] does not define it. *)
Definition login_success_response (user_id : string) (user : User.t)
    (access_token refresh_token : string) (expires_in : Z) : response :=
  success_response
    (DataLogin user_id (User.email user) (User.role user)
               access_token refresh_token expires_in)
    "Success" 200.

(** The three values [login] reads at lines 53-55, and the world once they
    have been read (the first read may load the cache). *)
Definition max_failed_setting (w : world) : value :=
  (get_setting "max_failed_login_attempts" (VInt 5) (settings w)).2.

Definition lockout_duration_setting (w : world) : value :=
  (get_setting "account_lockout_duration_minutes" (VInt 30) (settings w)).2.

Definition verification_setting (w : world) : value :=
  (get_setting "email_verification_required" (VBool true) (settings w)).2.

Definition settings_read (w : world) : world :=
  with_settings
    (get_setting "max_failed_login_attempts" (VInt 5) (settings w)).1 w.

(** The capabilities the handler imports from outside the core: password
    verification, token generation and the two expiry constants of
    [config]. *)
Record capabilities := {
  verify_password : string → string → bool;
  generate_access_token : string → string → string → string;
  generate_refresh_token : string → string;
  REFRESH_TOKEN_EXPIRY : Z;
  ACCESS_TOKEN_EXPIRY : Z
}.

Section with_capabilities.

Variable caps : capabilities.

(** What the [except Exception] clause answers. *)
Definition login_failed : response := error_response "Login failed" 500 None None.

(** Lines 57-73: the lockout check.  [inl] is an early return, [inr] the
    world and the handler's local [user] with which the request goes on. *)
Definition lockout_check (now : Z) (user_id : string) (user : User.t)
    (account_lockout_duration_minutes : value)
    (w : world) : (world * response) + (world * User.t) :=
  if User.is_locked user then
    match as_number account_lockout_duration_minutes with
    | None => inl (w, login_failed)
    | Some d =>
        if UserDB.should_auto_unlock now user d then
          inr (with_users (UserDB.unlock_account user_id (users w)) w,
               User.set_failed 0 (User.set_lock false (User.locked_at user) user))
        else if py_eq account_lockout_duration_minutes (VInt 0) then
          inl (w, error_response
                    "Account is permanently locked. Contact support." 403
                    None None)
        else
          inl (w, error_response
                    "Account is locked due to too many failed login attempts. Try again later."
                    403 None None)
    end
  else inr (w, user).

(** Lines 80-106: the password did not verify. *)
Definition wrong_password (now : Z) (ip_address email user_id : string)
    (max_failed_login_attempts account_lockout_duration_minutes : value)
    (w : world) : world * response :=
  let '(us, failed_attempts) :=
    UserDB.increment_failed_attempts user_id (users w) in
  let w := with_users us w in
  match as_number max_failed_login_attempts with
  | None => (w, login_failed)
  | Some m =>
      if m <=? failed_attempts then
        let w := with_users (UserDB.lock_account now user_id (users w)) w in
        if py_eq account_lockout_duration_minutes (VInt 0) then
          (w, error_response
                ("Account permanently locked due to "
                 +:+ py_str max_failed_login_attempts
                 +:+ " failed login attempts. Contact support.") 403 None None)
        else
          (w, error_response
                ("Account locked for "
                 +:+ py_str account_lockout_duration_minutes
                 +:+ " minutes due to "
                 +:+ py_str max_failed_login_attempts
                 +:+ " failed login attempts") 403 None None)
      else
        let w := record_attempt ip_address email false w in
        let remaining_attempts := m - failed_attempts in
        (w, error_response
              ("Invalid email or password. " +:+ pretty remaining_attempts
               +:+ " attempts remaining.") 401 None None)
  end.

(** Lines 108-141: the password verified. *)
Definition successful_login (now : Z) (ip_address email user_id : string)
    (user : User.t) (w : world) : world * response :=
  let w := with_users (UserDB.reset_failed_attempts user_id (users w)) w in
  let w := record_attempt ip_address email true w in
  let access_token :=
    generate_access_token caps user_id (User.email user) (User.role user) in
  let refresh_token := generate_refresh_token caps user_id in
  let w :=
    create_token {| token := refresh_token; token_user_id := user_id;
                    created_at := now;
                    expires_at := now + REFRESH_TOKEN_EXPIRY caps |} w in
  (w, login_success_response user_id user access_token refresh_token
        (ACCESS_TOKEN_EXPIRY caps)).

(** POST /auth/login from line 45 on: the body has been parsed and
    validated, [email] is the normalised address, [ip_address] the source
    address and [now] the clock reading of the request. *)
Definition login (now : Z) (ip_address email password : string)
    (w : world) : world * response :=
  match UserDB.get_user_by_email email (users w) with
  | None =>
      (record_attempt ip_address email false w,
       error_response "Invalid email or password" 401 None None)
  | Some (user_id, user) =>
      let '(st, max_failed_login_attempts) :=
        get_setting "max_failed_login_attempts" (VInt 5) (settings w) in
      let '(st, account_lockout_duration_minutes) :=
        get_setting "account_lockout_duration_minutes" (VInt 30) st in
      let '(st, email_verification_required) :=
        get_setting "email_verification_required" (VBool true) st in
      let w := with_settings st w in
      match lockout_check now user_id user account_lockout_duration_minutes w with
      | inl early => early
      | inr (w, user) =>
          if truthy email_verification_required && negb (User.is_verified user)
          then (w, error_response
                     "Account is not verified. Please verify your email and phone."
                     403 None None)
          else if negb (verify_password caps password (User.password user))
          then wrong_password now ip_address email user_id
                 max_failed_login_attempts account_lockout_duration_minutes w
          else successful_login now ip_address email user_id user w
      end
  end.

(** A login request as the handler sees it, and a run of requests handled
    one after the other. *)
Record request := {
  req_now : Z;
  req_ip : string;
  req_email : string;
  req_password : string
}.

Fixpoint logins (reqs : list request) (w : world) : world * list response :=
  match reqs with
  | [] => (w, [])
  | q :: rest =>
      let '(w1, resp) :=
        login (req_now q) (req_ip q) (req_email q) (req_password q) w in
      let '(w2, resps) := logins rest w1 in
      (w2, resp :: resps)
  end.

End with_capabilities.

End Login.

(** ** utils/schemas.py: the schemas built from length and membership
    constraints only *)

Module Schemas.
Import SchemaValidator.

Section with_roles.

Variable VALID_ROLES : list string.

(** A [str] field with an optional minimum length and an optional list of
    allowed values. *)
Definition str_field (req : bool) (min_len : option Z)
    (allowed : option (list value)) : SchemaField :=
  {| field_type := TStr; required := req;
     min_length := min_len; max_length := None;
     min_value := None; max_value := None;
     allowed_values := allowed; pattern := None; custom_validator := None |}.

(** POST /auth/refresh *)
Definition refresh_token_schema : Schema :=
  {| fields := {[ "refresh_token" := str_field true (Some 1) None ]};
     strict := true |}.

(** POST /auth/logout *)
Definition logout_schema : Schema :=
  {| fields := {[ "refresh_token" := str_field true (Some 1) None ]};
     strict := true |}.

(** PUT /users/{id}/role *)
Definition update_role_schema : Schema :=
  {| fields :=
       {[ "role" := str_field true None (Some (VStr <$> VALID_ROLES));
          "tenant_id" := str_field false (Some 1) None ]};
     strict := true |}.

End with_roles.

End Schemas.

(** ** init_settings.py *)

Module InitSettings.
Import AppSettings.

(** [sorted(public_settings.items())]: the keys are distinct, so the pairs
    are ordered by key, and strings compare character by character. *)
Definition sorted_items (m : gmap string value) : list (string * value) :=
  merge_sort (λ a b : string * value, String.leb a.1 b.1) (map_to_list m).

(** [main]: the state it leaves, the exit status (1 for [sys.exit(1)]) and
    the lines of the loop over the settings.  The banners and the messages
    the other functions print are left out. *)
Definition main (s : state) : state * Z * list string :=
  match initialize_settings s with
  | Raises s1 => (s1, 1, [])
  | Returns s1 =>
      let '(s2, settings) := get_all_settings s1 in
      let public_settings :=
        filter (λ kv : string * value, negb (startswith_underscore kv.1))
               settings in
      (s2, 0,
       (λ kv : string * value, "  " +:+ kv.1 +:+ ": " +:+ py_str kv.2)
         <$> sorted_items public_settings)
  end.

End InitSettings.

(** ** Well-formed user stores *)

Module Accounts.

(** No two accounts of the store share an address. *)
Definition unique_emails (us : gmap string User.t) : Prop :=
  ∀ i j ui uj,
    us !! i = Some ui → us !! j = Some uj →
    User.email ui = User.email uj → i = j.

End Accounts.

(** * Sample states *)

Module Samples.
Import AppSettings.

(** A process that has just started against an empty, reachable table. *)
Definition fresh_state : state :=
  {| settings_table := ∅; reachable := true;
     _settings_cache := ∅; _cache_initialized := false |}.

(** The same table once [initialize_settings] has seeded it. *)
Definition seeded_state : state := state_of (initialize_settings fresh_state).

(** A freshly started process whose seeded table cannot be reached. *)
Definition outage_state : state :=
  {| settings_table := settings_table seeded_state; reachable := false;
     _settings_cache := ∅; _cache_initialized := false |}.

(** Role names for the sample requests. *)
Definition sample_roles : list string := ["master"; "admin"; "staff"; "customer"].

(** A PUT /settings body with one valid and one unlisted key. *)
Definition mixed_body : gmap string value :=
  {[ "min_password_length" := VInt 8; "bogus" := VInt 1 ]}.

(** A PUT /settings body whose keys are all valid. *)
Definition valid_body : gmap string value :=
  {[ "min_password_length" := VInt 8; "default_public_role" := VStr "staff" ]}.

(** Capabilities for the sample requests: the stored verifier is the
    password itself. *)
Definition sample_caps : Login.capabilities :=
  {| Login.verify_password := λ candidate stored, bool_decide (candidate = stored);
     Login.generate_access_token := λ uid _ _, "access-" +:+ uid;
     Login.generate_refresh_token := λ uid, "refresh-" +:+ uid;
     Login.REFRESH_TOKEN_EXPIRY := 604800;
     Login.ACCESS_TOKEN_EXPIRY := 3600 |}.

(** A verified, unlocked account with one earlier failure. *)
Definition alice : User.t :=
  {| User.email := "alice@example.com"; User.password := "correct horse";
     User.role := "customer"; User.is_verified := true;
     User.is_locked := false; User.failed_login_attempts := 1;
     User.locked_at := None |}.

(** A verified account locked at time 1000 (in seconds). *)
Definition carol : User.t :=
  {| User.email := "carol@example.com"; User.password := "battery staple";
     User.role := "staff"; User.is_verified := true;
     User.is_locked := true; User.failed_login_attempts := 5;
     User.locked_at := Some 1000 |}.

(** An unverified, unlocked account. *)
Definition dave : User.t :=
  {| User.email := "dave@example.com"; User.password := "hunter2";
     User.role := "customer"; User.is_verified := false;
     User.is_locked := false; User.failed_login_attempts := 0;
     User.locked_at := None |}.

(** A verified, unlocked account one failure short of the threshold 5. *)
Definition erin : User.t :=
  {| User.email := "erin@example.com"; User.password := "tr0ub4dor";
     User.role := "customer"; User.is_verified := true;
     User.is_locked := false; User.failed_login_attempts := 4;
     User.locked_at := None |}.

Definition sample_users : gmap string User.t :=
  {[ "u-alice" := alice; "u-carol" := carol; "u-dave" := dave;
     "u-erin" := erin ]}.

(** The four accounts over the seeded settings (threshold 5, lockout 30
    minutes, verification required). *)
Definition sample_world : Login.world :=
  {| Login.users := sample_users; Login.login_attempts := [];
     Login.refresh_tokens := []; Login.settings := seeded_state |}.

(** The same accounts with the lockout duration set to 0. *)
Definition permanent_world : Login.world :=
  {| Login.users := sample_users; Login.login_attempts := [];
     Login.refresh_tokens := [];
     Login.settings :=
       state_of (update_setting "account_lockout_duration_minutes" (VInt 0)
                   seeded_state) |}.

(** The same accounts with a string stored as the threshold. *)
Definition mistyped_world : Login.world :=
  {| Login.users := sample_users; Login.login_attempts := [];
     Login.refresh_tokens := [];
     Login.settings :=
       state_of (update_setting "max_failed_login_attempts" (VStr "five")
                   seeded_state) |}.

End Samples.

(** * Properties *)

(** ** The settings store *)

Module AppSettingsFacts.
Import AppSettings.

Lemma convert_to_attr (v : value) : _convert_dynamodb_types (to_attr v) = v.
Proof. by destruct v. Qed.

Lemma DEFAULT_SETTINGS_keys_NoDup : NoDup DEFAULT_SETTINGS.*1.
Proof. apply (bool_decide_unpack _). by vm_compute. Qed.

(** A run of [put_item] calls over distinct keys: a key of the run holds
    the item written for it, any other key holds what it held before. *)
Lemma put_items_lookup (l : list (string * value)) (t : gmap string item) k :
  NoDup l.*1 →
  foldl (λ t kv, put_item kv.1 kv.2 t) t l !! k =
  match (list_to_map l : gmap string value) !! k with
  | Some v => Some {| setting_value := to_attr v; setting_type := type_name v |}
  | None => t !! k
  end.
Proof.
  revert t. induction l as [|[k0 v0] l IH]; intros t Hnd.
  - done.
  - rewrite fmap_cons in Hnd. apply NoDup_cons in Hnd as [Hk0 Hnd].
    cbn [foldl fst snd]. rewrite IH by done.
    change (list_to_map ((k0, v0) :: l) : gmap string value)
      with (<[k0 := v0]> (list_to_map l : gmap string value)).
    unfold put_item. destruct (decide (k0 = k)) as [->|Hne].
    + rewrite !lookup_insert_eq.
      apply (not_elem_of_list_to_map_1 (M := gmap string)) in Hk0.
      simpl in Hk0. by rewrite Hk0.
    + by rewrite !lookup_insert_ne.
Qed.

Lemma load_settings_reachable (s : state) :
  reachable s = true →
  (load_settings s).1 =
  {| settings_table := settings_table s; reachable := true;
     _settings_cache :=
       (λ it, _convert_dynamodb_types (setting_value it)) <$> settings_table s;
     _cache_initialized := true |}.
Proof. intros H. unfold load_settings. by rewrite H. Qed.

Lemma load_settings_unreachable (s : state) :
  reachable s = false → load_settings s = (s, DEFAULT_SETTINGS_dict).
Proof. intros H. unfold load_settings. by rewrite H. Qed.

(** What [get_setting] answers once the cache entry is known. *)
Lemma get_setting_cached key d (s : state) v :
  _cache_initialized s = true →
  _settings_cache s !! key = Some v → v ≠ VNone →
  get_setting key d s = (s, v).
Proof.
  intros Hi Hc Hv. unfold get_setting. rewrite Hi, Hc. simpl.
  destruct v; try done.
Qed.

(** Reading a setting may load the cache and changes nothing else. *)
Lemma get_setting_table key d (s : state) :
  settings_table (get_setting key d s).1 = settings_table s
  ∧ reachable (get_setting key d s).1 = reachable s.
Proof.
  unfold get_setting, load_settings. simpl.
  destruct (_cache_initialized s); [done|]. by destruct (reachable s) eqn:E.
Qed.

(** [get_setting] reads the same value before and after another read. *)
Lemma get_setting_stable key d key' d' (s : state) :
  (get_setting key d (get_setting key' d' s).1).2 = (get_setting key d s).2
  ∧ (get_setting key d (get_setting key' d' s).1).1 = (get_setting key d s).1.
Proof.
  unfold get_setting, load_settings. simpl.
  destruct (_cache_initialized s) eqn:Hi; simpl.
  - by rewrite Hi.
  - destruct (reachable s) eqn:Hr; simpl.
    + done.
    + by rewrite Hi, Hr.
Qed.

End AppSettingsFacts.

Module AppSettingsClaims.
Import AppSettings AppSettingsFacts Samples.

(** C7 (the code departs from the claim).  With the table unreachable and
    the cache never loaded, [load_settings] hands the hard-coded defaults to
    its caller, [get_setting] answers the caller's fallback or else the
    hard-coded default, but [get_all_settings] drops what [load_settings]
    returned and answers the empty cache. *)
Theorem get_all_settings_outage_is_empty :
  (load_settings outage_state).2 = DEFAULT_SETTINGS_dict
  ∧ (get_setting "max_failed_login_attempts" (VInt 7) outage_state).2 = VInt 7
  ∧ (get_setting "max_failed_login_attempts" VNone outage_state).2 = VInt 5
  ∧ (get_all_settings outage_state).2 = ∅
  ∧ (get_all_settings outage_state).2 ≠ DEFAULT_SETTINGS_dict.
Proof.
  split_and!; [reflexivity..|].
  intros H. apply (f_equal (λ m : gmap string value, m !! "_version")) in H.
  vm_compute in H. discriminate.
Qed.

(** C8.  Once [update_setting key v] has returned for a value [v] that is
    not [None], [get_setting key] answers [v]: at once, after
    [clear_cache], and after [clear_cache] following an earlier read. *)
Theorem update_setting_get_setting_round_trip
    (key : string) (v d : value) (s s1 : state) :
  v ≠ VNone →
  update_setting key v s = Returns s1 →
  (get_setting key d s1).2 = v
  ∧ (get_setting key d (clear_cache s1)).2 = v
  ∧ (get_setting key d (clear_cache (get_setting key d s1).1)).2 = v.
Proof.
  intros Hv Hu. unfold update_setting in Hu.
  destruct (reachable s) eqn:Hr; [|done]. injection Hu as <-.
  assert (Hload : ∀ s2 : state,
            reachable s2 = true →
            settings_table s2 = put_item key v (settings_table s) →
            _cache_initialized s2 = false →
            (get_setting key d s2).2 = v).
  { intros s2 Hr2 Ht2 Hi2. unfold get_setting. rewrite Hi2.
    rewrite load_settings_reachable by done. cbn [_settings_cache snd].
    rewrite Ht2. unfold put_item. rewrite lookup_fmap, lookup_insert_eq.
    cbn. rewrite convert_to_attr. by destruct v. }
  split_and!.
  - destruct (_cache_initialized s) eqn:Hi.
    + unfold get_setting. cbn [_cache_initialized].
      cbn [_settings_cache snd]. rewrite lookup_insert_eq. cbn.
      by destruct v.
    + apply Hload; done.
  - apply Hload; done.
  - apply Hload; [| |done].
    + cbn [clear_cache reachable]. by rewrite (proj2 (get_setting_table _ _ _)).
    + cbn [clear_cache settings_table].
      by rewrite (proj1 (get_setting_table _ _ _)).
Qed.

(** Witness for C8: the lockout threshold set to 3 on the seeded store. *)
Lemma update_setting_get_setting_round_trip_witness :
  let s1 := state_of (update_setting "max_failed_login_attempts" (VInt 3)
                        seeded_state) in
  (get_setting "max_failed_login_attempts" VNone s1).2 = VInt 3
  ∧ (get_setting "max_failed_login_attempts" VNone (clear_cache s1)).2 = VInt 3
  ∧ (get_setting "max_failed_login_attempts" VNone
       (clear_cache (get_setting "max_failed_login_attempts" VNone s1).1)).2
    = VInt 3.
Proof.
  apply (update_setting_get_setting_round_trip
           "max_failed_login_attempts" (VInt 3) VNone seeded_state).
  - discriminate.
  - reflexivity.
Defined.

(** C9.  On a reachable table [initialize_settings] returns; when the
    [_initialized] item is present it writes nothing and leaves the whole
    state as it was; when the item is absent it writes every entry of
    [DEFAULT_SETTINGS] and touches no other key; and a second call after
    either changes nothing. *)
Theorem initialize_settings_idempotent (s : state) :
  reachable s = true →
  (is_Some (settings_table s !! "_initialized") →
     initialize_settings s = Returns s)
  ∧ (settings_table s !! "_initialized" = None →
     ∃ s1, initialize_settings s = Returns s1
       ∧ (∀ k v, DEFAULT_SETTINGS_dict !! k = Some v →
            settings_table s1 !! k =
            Some {| setting_value := to_attr v; setting_type := type_name v |})
       ∧ (∀ k, DEFAULT_SETTINGS_dict !! k = None →
            settings_table s1 !! k = settings_table s !! k)
       ∧ _settings_cache s1 = _settings_cache s
       ∧ _cache_initialized s1 = _cache_initialized s)
  ∧ (∀ s1, initialize_settings s = Returns s1 →
     initialize_settings s1 = Returns s1).
Proof.
  intros Hr.
  assert (Hseed : ∀ k,
    foldl (λ t kv, put_item kv.1 kv.2 t) (settings_table s) DEFAULT_SETTINGS
      !! k =
    match DEFAULT_SETTINGS_dict !! k with
    | Some v => Some {| setting_value := to_attr v; setting_type := type_name v |}
    | None => settings_table s !! k
    end).
  { intros k. apply put_items_lookup, DEFAULT_SETTINGS_keys_NoDup. }
  split_and!.
  - intros [it Hit]. unfold initialize_settings. by rewrite Hr, Hit.
  - intros Hnone. unfold initialize_settings. rewrite Hr, Hnone.
    eexists. split; [done|].
    cbn [settings_table _settings_cache _cache_initialized].
    split_and!; try done.
    + intros k v Hk. by rewrite Hseed, Hk.
    + intros k Hk. by rewrite Hseed, Hk.
  - intros s1. unfold initialize_settings at 1. rewrite Hr.
    destruct (settings_table s !! "_initialized") as [it|] eqn:Hit.
    + intros [= <-]. unfold initialize_settings. by rewrite Hr, Hit.
    + intros [= <-]. unfold initialize_settings. cbn [reachable settings_table].
      unfold put_item at 1. by rewrite lookup_insert_eq.
Qed.

(** Witness for C9: the empty table is seeded by the first call and left
    alone by the second. *)
Lemma initialize_settings_idempotent_witness :
  initialize_settings seeded_state = Returns seeded_state.
Proof.
  apply (initialize_settings_idempotent fresh_state); reflexivity.
Defined.

End AppSettingsClaims.

(** ** The schema validator *)

Module SchemaFacts.
Import SchemaValidator.

(** A loop over the items of a dictionary whose body only touches the entry
    of the key at hand. *)
Lemma foldl_keyed_lookup {A B : Type}
    (step : gmap string B → string * A → gmap string B)
    (g : string → A → option B → option B) :
  (∀ acc k a k',
     step acc (k, a) !! k' = if decide (k' = k) then g k a (acc !! k) else acc !! k') →
  ∀ (l : list (string * A)) acc k,
    NoDup l.*1 →
    foldl step acc l !! k =
    match (list_to_map l : gmap string A) !! k with
    | Some a => g k a (acc !! k)
    | None => acc !! k
    end.
Proof.
  intros Hstep l. induction l as [|[k0 a0] l IH]; intros acc k Hnd.
  - done.
  - rewrite fmap_cons in Hnd. apply NoDup_cons in Hnd as [Hk0 Hnd].
    cbn [foldl]. rewrite IH by done. rewrite Hstep.
    change (list_to_map ((k0, a0) :: l) : gmap string A)
      with (<[k0 := a0]> (list_to_map l : gmap string A)).
    destruct (decide (k = k0)) as [->|Hne].
    + apply (not_elem_of_list_to_map_1 (M := gmap string)) in Hk0.
      simpl in Hk0. by rewrite Hk0, lookup_insert_eq.
    + rewrite lookup_insert_ne by done.
      by destruct (list_to_map l !! k).
Qed.

Lemma foldl_keyed_lookup_map {A B : Type}
    (step : gmap string B → string * A → gmap string B)
    (g : string → A → option B → option B) (m : gmap string A) acc k :
  (∀ acc k a k',
     step acc (k, a) !! k' = if decide (k' = k) then g k a (acc !! k) else acc !! k') →
  foldl step acc (map_to_list m) !! k =
  match m !! k with
  | Some a => g k a (acc !! k)
  | None => acc !! k
  end.
Proof.
  intros Hstep.
  rewrite (foldl_keyed_lookup step g Hstep) by apply NoDup_fst_map_to_list.
  by rewrite list_to_map_to_list.
Qed.

(** An exception of [SchemaField.validate] names the field and nothing
    else. *)
Lemma SchemaField_validate_details f k v e :
  SchemaField_validate f k v = Some e → ∃ d, ve_details e = {[ k := d ]}.
Proof.
  assert (Hraise : ∀ msg d e, raise_field msg k d = Some e →
            ∃ d, ve_details e = {[ k := d ]}).
  { intros msg d e0 [= <-]. by eexists. }
  assert (Hor : ∀ a b e, or_else a b = Some e → a = Some e ∨ b = Some e).
  { intros [a|] b e0; simpl; auto. }
  unfold SchemaField_validate. intros H.
  repeat (apply Hor in H as [H|H]).
  - unfold check_type in H. case_match; [done|]. eauto.
  - unfold check_length in H. destruct v; try done.
    apply Hor in H as [H|H]; repeat case_match; try done; eauto.
  - unfold check_range in H.
    repeat case_match; try done;
      apply Hor in H as [H|H]; repeat case_match; try done; eauto.
  - unfold check_allowed in H. repeat case_match; try done; eauto.
  - unfold check_pattern in H. repeat case_match; try done; eauto.
  - unfold check_custom in H. repeat case_match; try done; eauto.
Qed.

(** [Schema.validate] field by field: the entry of [errors] under any key. *)
Lemma Schema_errors_lookup (sch : Schema) (data : gmap string value) k :
  Schema_errors sch data !! k =
  match data !! k with
  | Some v => field_error sch k v
  | None =>
      match fields sch !! k with
      | Some f => if required f then Some "This field is required" else None
      | None => None
      end
  end.
Proof.
  unfold Schema_errors, field_error.
  rewrite (foldl_keyed_lookup_map (present_step sch)
    (λ k v o, match fields sch !! k with
              | Some f => match SchemaField_validate f k v with
                          | Some e => ve_details e !! k
                          | None => o
                          end
              | None => o
              end)).
  2:{ intros acc k0 a k'. unfold present_step. cbn [fst snd].
      destruct (fields sch !! k0) as [f|] eqn:Hf.
      - destruct (SchemaField_validate f k0 a) as [e|] eqn:He.
        + destruct (SchemaField_validate_details _ _ _ _ He) as [d ->].
          destruct (decide (k' = k0)) as [->|Hne].
          * by rewrite lookup_union_l', !lookup_singleton_eq
              by (rewrite lookup_singleton_eq; eauto).
          * by rewrite lookup_union_r by (by apply lookup_singleton_ne).
        + by destruct (decide (k' = k0)) as [->|].
      - by destruct (decide (k' = k0)) as [->|]. }
  assert (Hmissing : ∀ k,
    foldl (missing_step data) ∅ (map_to_list (fields sch)) !! k =
    match fields sch !! k with
    | Some f => if required f && negb (bool_decide (is_Some (data !! k)))
                then Some "This field is required" else None
    | None => None
    end).
  { intros k0.
    rewrite (foldl_keyed_lookup_map (missing_step data)
      (λ k f o, if required f && negb (bool_decide (is_Some (data !! k)))
                then Some "This field is required" else o)).
    - by rewrite lookup_empty.
    - intros acc k1 a k'. unfold missing_step. cbn [fst snd].
      destruct (required a && negb (bool_decide (is_Some (data !! k1)))).
      + destruct (decide (k' = k1)) as [->|].
        * by rewrite lookup_insert_eq.
        * by rewrite lookup_insert_ne.
      + by destruct (decide (k' = k1)) as [->|]. }
  assert (Hextra : ∀ acc k,
    foldl (extra_step sch) acc (map_to_list data) !! k =
    match data !! k with
    | Some v => match fields sch !! k with
                | None => Some "This field is not allowed"
                | Some _ => acc !! k
                end
    | None => acc !! k
    end).
  { intros acc k0.
    rewrite (foldl_keyed_lookup_map (extra_step sch)
      (λ k (_ : value) o, match fields sch !! k with
                | None => Some "This field is not allowed"
                | Some _ => o
                end)); [done|].
    intros acc0 k1 a k'. unfold extra_step. cbn [fst snd].
    destruct (fields sch !! k1).
    - by destruct (decide (k' = k1)) as [->|].
    - destruct (decide (k' = k1)) as [->|].
      + by rewrite lookup_insert_eq.
      + by rewrite lookup_insert_ne. }
  destruct (strict sch); rewrite ?Hextra, Hmissing;
    destruct (data !! k) as [v|] eqn:Hd; destruct (fields sch !! k) as [f|];
    try done.
  all: repeat case_match; try done.
  all: rewrite bool_decide_true, andb_false_r in * by eauto; done.
Qed.

Lemma or_else_None a b : or_else a b = None → a = None ∧ b = None.
Proof. by destruct a. Qed.

(** What a field that validates has passed. *)
Lemma SchemaField_validate_None f k v :
  SchemaField_validate f k v = None →
  isinstance v (field_type f) = true
  ∧ check_range f k v = None
  ∧ check_allowed f k v = None.
Proof.
  unfold SchemaField_validate. intros H.
  repeat (apply or_else_None in H as [? H]).
  split_and!; try done.
  unfold check_type in *. by destruct (isinstance v (field_type f)).
Qed.

Lemma check_range_None f k v n lo hi :
  check_range f k v = None →
  isinstance v TInt = true → as_number v = Some n →
  min_value f = Some lo → max_value f = Some hi →
  lo ≤ n ≤ hi.
Proof.
  unfold check_range. intros H Hty Hn Hlo Hhi.
  rewrite Hlo, Hhi in H.
  destruct v; try done; cbn [as_number] in *; injection Hn as Hn;
    apply or_else_None in H as [H1 H2]; rewrite Hn in *;
    destruct (Z.ltb_spec n lo), (Z.ltb_spec hi n); try done; lia.
Qed.

Lemma check_allowed_None f k v l :
  check_allowed f k v = None → allowed_values f = Some l → py_in v l = true.
Proof.
  unfold check_allowed. intros H Hl. rewrite Hl in H. by destruct (py_in v l).
Qed.

Lemma field_error_None (sch : Schema) k v :
  field_error sch k v = None →
  if strict sch
  then ∃ f, fields sch !! k = Some f ∧ SchemaField_validate f k v = None
  else ∀ f, fields sch !! k = Some f → SchemaField_validate f k v = None.
Proof.
  unfold field_error. destruct (fields sch !! k) as [f|] eqn:Hf.
  - destruct (SchemaField_validate f k v) as [e|] eqn:He.
    + destruct (SchemaField_validate_details _ _ _ _ He) as [d ->].
      by rewrite lookup_singleton_eq.
    + intros _. destruct (strict sch); [eauto|]. by intros ? [= <-].
  - by destruct (strict sch).
Qed.

End SchemaFacts.

(** ** The settings handlers *)

Module SettingsFacts.
Import AppSettings SchemaValidator SettingsHandlers AppSettingsFacts SchemaFacts.

Section with_roles.

Variable VALID_ROLES : list string.

Lemma update_settings_fields_elem k f :
  fields (update_settings_schema VALID_ROLES) !! k = Some f →
  (k, f) ∈ update_settings_fields VALID_ROLES.
Proof. apply elem_of_list_to_map_2. Qed.

(** Closed look-ups and comparisons of setting names are evaluated. *)
Ltac eval_names :=
  repeat match goal with
  | |- context [ALLOWED_SETTINGS !! ?k] =>
      let r := eval vm_compute in (ALLOWED_SETTINGS !! k) in
      change (ALLOWED_SETTINGS !! k) with r
  | |- context [bool_decide (@eq string ?a ?b)] =>
      let r := eval vm_compute in (bool_decide (a = b)) in
      change (bool_decide (a = b)) with r
  end.

(** A body the schema accepts is a body the handler's own loop accepts. *)
Lemma schema_accepts_check_setting k v :
  field_error (update_settings_schema VALID_ROLES) k v = None →
  check_setting VALID_ROLES k v = None ∧ v ≠ VNone.
Proof.
  intros H. apply field_error_None in H. cbn [strict update_settings_schema] in H.
  destruct H as (f & Hf & H).
  apply SchemaField_validate_None in H as (Hty & Hrange & Hallowed).
  split; [|by intros ->; destruct (field_type f)].
  apply update_settings_fields_elem in Hf.
  unfold update_settings_fields in Hf.
  repeat (apply elem_of_cons in Hf as [Hf|Hf]); [..|by apply elem_of_nil in Hf];
    injection Hf as -> ->; cbn [field_type plain_field ranged_field role_field] in Hty;
    unfold check_setting, range_block, role_block, first_error; eval_names;
    cbv iota; rewrite Hty; cbn [negb].
  1-4: done.
  - by rewrite (check_allowed_None _ _ _ _ Hallowed eq_refl).
  - destruct (as_number v) as [n|] eqn:Hn; [|done].
    pose proof (check_range_None _ _ _ _ _ _ Hrange Hty Hn eq_refl eq_refl).
    destruct (Z.ltb_spec n 4), (Z.ltb_spec 128 n); try done; lia.
  - destruct (as_number v) as [n|] eqn:Hn; [|done].
    pose proof (check_range_None _ _ _ _ _ _ Hrange Hty Hn eq_refl eq_refl).
    destruct (Z.ltb_spec n 1), (Z.ltb_spec 100 n); try done; lia.
  - destruct (as_number v) as [n|] eqn:Hn; [|done].
    pose proof (check_range_None _ _ _ _ _ _ Hrange Hty Hn eq_refl eq_refl).
    destruct (Z.ltb_spec n 0), (Z.ltb_spec 10080 n); try done; lia.
Qed.

Lemma update_settings_fields_optional k f :
  fields (update_settings_schema VALID_ROLES) !! k = Some f → required f = false.
Proof.
  intros Hf. apply update_settings_fields_elem in Hf.
  unfold update_settings_fields in Hf.
  repeat (apply elem_of_cons in Hf as [Hf|Hf]); [..|by apply elem_of_nil in Hf];
    by injection Hf as -> ->.
Qed.

(** The schema's verdict on a body, key by key. *)
Lemma update_settings_schema_errors (body : gmap string value) k :
  Schema_errors (update_settings_schema VALID_ROLES) body !! k =
  body !! k ≫= field_error (update_settings_schema VALID_ROLES) k.
Proof.
  rewrite Schema_errors_lookup. destruct (body !! k) as [v|]; [done|].
  destruct (fields _ !! k) as [f|] eqn:Hf; [|done].
  by rewrite (update_settings_fields_optional _ _ Hf).
Qed.

(** The handler's loop, one accumulator at a time. *)
Lemma validate_loop_errors l acc :
  (foldl (validate_step VALID_ROLES) acc l).1 =
  foldl (λ e kv, match check_setting VALID_ROLES kv.1 kv.2 with
                 | Some x => <[kv.1 := x]> e
                 | None => e
                 end) acc.1 l.
Proof.
  revert acc. induction l as [|[k v] l IH]; intros acc; [done|].
  cbn [foldl]. rewrite IH. unfold validate_step. cbn [fst snd].
  by destruct (check_setting VALID_ROLES k v).
Qed.

Lemma validate_loop_validated l acc :
  (foldl (validate_step VALID_ROLES) acc l).2 =
  foldl (λ m kv, match check_setting VALID_ROLES kv.1 kv.2 with
                 | Some _ => m
                 | None => <[kv.1 := kv.2]> m
                 end) acc.2 l.
Proof.
  revert acc. induction l as [|[k v] l IH]; intros acc; [done|].
  cbn [foldl]. rewrite IH. unfold validate_step. cbn [fst snd].
  by destruct (check_setting VALID_ROLES k v).
Qed.

Lemma validate_loop_lookup (body : gmap string value) k :
  let r := foldl (validate_step VALID_ROLES) (∅, ∅) (map_to_list body) in
  r.1 !! k = body !! k ≫= check_setting VALID_ROLES k
  ∧ r.2 !! k = body !! k ≫= λ v,
      match check_setting VALID_ROLES k v with Some _ => None | None => Some v end.
Proof.
  cbn zeta. rewrite validate_loop_errors, validate_loop_validated. cbn [fst snd].
  split.
  - rewrite (foldl_keyed_lookup_map _
      (λ k v o, match check_setting VALID_ROLES k v with
                | Some x => Some x | None => o end)).
    + rewrite lookup_empty. destruct (body !! k) as [v|]; [|done].
      cbn. by destruct (check_setting VALID_ROLES k v).
    + intros acc k0 a k'. cbn [fst snd].
      destruct (check_setting VALID_ROLES k0 a);
        destruct (decide (k' = k0)) as [->|]; try done.
      * by rewrite lookup_insert_eq.
      * by rewrite lookup_insert_ne.
  - rewrite (foldl_keyed_lookup_map _
      (λ k v o, match check_setting VALID_ROLES k v with
                | Some _ => o | None => Some v end)).
    + rewrite lookup_empty. destruct (body !! k) as [v|]; [|done].
      cbn. by destruct (check_setting VALID_ROLES k v).
    + intros acc k0 a k'. cbn [fst snd].
      destruct (check_setting VALID_ROLES k0 a);
        destruct (decide (k' = k0)) as [->|]; try done.
      * by rewrite lookup_insert_eq.
      * by rewrite lookup_insert_ne.
Qed.

(** On a reachable table a batch of updates returns, having written every
    pair to the table and to the cache. *)
Lemma update_settings_items_reachable l (s : state) :
  reachable s = true →
  ∃ s1, update_settings_items l s = Returns s1
    ∧ reachable s1 = true
    ∧ _cache_initialized s1 = _cache_initialized s
    ∧ settings_table s1 =
        foldl (λ t kv, put_item kv.1 kv.2 t) (settings_table s) l
    ∧ _settings_cache s1 =
        foldl (λ c kv, <[kv.1 := kv.2]> c) (_settings_cache s) l.
Proof.
  revert s. induction l as [|[k v] l IH]; intros s Hr.
  - by exists s.
  - cbn [update_settings_items]. unfold update_setting. rewrite Hr.
    match goal with
    | |- context [update_settings_items l ?s'] =>
        destruct (IH s') as (s1 & -> & ? & ? & ? & ?); [done|]
    end.
    by exists s1.
Qed.

Lemma update_settings_reachable (m : gmap string value) (s : state) :
  reachable s = true →
  ∃ s1, AppSettings.update_settings m s = Returns s1
    ∧ reachable s1 = true
    ∧ _cache_initialized s1 = _cache_initialized s
    ∧ (∀ k, settings_table s1 !! k =
            match m !! k with
            | Some v => Some {| setting_value := to_attr v;
                                setting_type := type_name v |}
            | None => settings_table s !! k
            end)
    ∧ (∀ k, _settings_cache s1 !! k =
            match m !! k with
            | Some v => Some v
            | None => _settings_cache s !! k
            end).
Proof.
  intros Hr. unfold AppSettings.update_settings.
  destruct (update_settings_items_reachable (map_to_list m) s Hr)
    as (s1 & Hs1 & ? & ? & Ht & Hc).
  exists s1. split_and!; try done.
  - intros k. rewrite Ht, put_items_lookup by apply NoDup_fst_map_to_list.
    by rewrite list_to_map_to_list.
  - intros k. rewrite Hc.
    rewrite (foldl_keyed_lookup_map _ (λ _ v _, Some v)).
    + done.
    + intros acc k0 a k'. cbn [fst snd].
      destruct (decide (k' = k0)) as [->|].
      * by rewrite lookup_insert_eq.
      * by rewrite lookup_insert_ne.
Qed.

(** After such a batch every written setting reads back. *)
Lemma get_setting_after_update (s1 : state) k v d :
  reachable s1 = true →
  settings_table s1 !! k =
    Some {| setting_value := to_attr v; setting_type := type_name v |} →
  _settings_cache s1 !! k = Some v →
  v ≠ VNone →
  (get_setting k d s1).2 = v.
Proof.
  intros Hr Ht Hc Hv. unfold get_setting.
  destruct (_cache_initialized s1).
  - cbn [snd]. rewrite Hc. cbn. by destruct v.
  - rewrite load_settings_reachable by done. cbn [_settings_cache snd].
    rewrite lookup_fmap, Ht. cbn. rewrite convert_to_attr. by destruct v.
Qed.

(** The loop that reads the updated settings back. *)
Lemma read_back_loop (s1 : state) l st upd :
  (∀ k d, (get_setting k d st).2 = (get_setting k d s1).2) →
  settings_table st = settings_table s1 →
  let r := foldl read_back_step (st, upd) l in
  (∀ k d, (get_setting k d r.1).2 = (get_setting k d s1).2)
  ∧ settings_table r.1 = settings_table s1
  ∧ r.2 = foldl (λ u kv, <[kv.1 := (get_setting kv.1 VNone s1).2]> u) upd l.
Proof.
  revert st upd. induction l as [|[k v] l IH]; intros st upd Hget Ht; [done|].
  cbn [foldl]. unfold read_back_step at 2 4 6. cbn [fst snd].
  destruct (get_setting k VNone st) as [st' x] eqn:E.
  assert (st' = (get_setting k VNone st).1) as -> by by rewrite E.
  assert (x = (get_setting k VNone s1).2) as ->
    by (by rewrite <- Hget, E).
  apply IH.
  - intros k0 d. rewrite (proj1 (get_setting_stable _ _ _ _ _)). apply Hget.
  - by rewrite (proj1 (get_setting_table _ _ _)).
Qed.

End with_roles.

End SettingsFacts.

Module SettingsClaims.
Import AppSettings SchemaValidator SettingsHandlers.
Import AppSettingsFacts SchemaFacts SettingsFacts Samples.

(** What the dictionary comprehension of GET /settings keeps. *)
Lemma public_settings_lookup (settings : gmap string value) (k : string) :
  filter (λ kv : string * value, negb (startswith_underscore kv.1)) settings
    !! k =
  if startswith_underscore k then None else settings !! k.
Proof.
  rewrite map_lookup_filter.
  destruct (settings !! k) as [v|]; cbn.
  - destruct (startswith_underscore k); by simplify_option_eq.
  - by destruct (startswith_underscore k).
Qed.

(** C10 (the code departs from the claim).  GET /settings always answers
    200 "Success", and no key that starts with an underscore is ever in its
    payload.  What the payload holds under the other keys depends on the
    state: the cache when it has been loaded; the table's items, converted,
    when the process is cold and the table can be read.  When the process is
    cold and the table cannot be read, the payload is what happens to be in
    the unloaded cache: for a freshly started process against the seeded
    table the answer is 200 with an empty payload, although the table holds
    [min_password_length], [load_settings] hands that key's default to its
    caller and [get_setting] answers it. *)
Theorem get_settings_outage_payload_is_empty :
  (∀ s : state, ∃ p,
     (get_settings s).2 = success_response (DataSettings p) "Success" 200
     ∧ ∀ k, p !! k =
         if startswith_underscore k then None
         else if _cache_initialized s then _settings_cache s !! k
         else if reachable s
              then (λ it, _convert_dynamodb_types (setting_value it))
                     <$> settings_table s !! k
              else _settings_cache s !! k)
  ∧ (get_settings outage_state).2 =
      success_response (DataSettings ∅) "Success" 200
  ∧ settings_table outage_state !! "min_password_length" =
      Some {| setting_value := ADecimal 4; setting_type := "int" |}
  ∧ (load_settings outage_state).2 !! "min_password_length" = Some (VInt 4)
  ∧ (get_setting "min_password_length" VNone outage_state).2 = VInt 4.
Proof.
  split_and!; [|reflexivity..].
  intros s. unfold get_settings, get_all_settings.
  eexists. split; [reflexivity|]. intros k.
  rewrite public_settings_lookup.
  destruct (startswith_underscore k); [done|].
  destruct (_cache_initialized s); [done|].
  unfold load_settings. destruct (reachable s); cbn [fst _settings_cache].
  - by rewrite lookup_fmap.
  - done.
Qed.

Lemma py_in_roles (roles : list string) (r : string) :
  py_in (VStr r) (VStr <$> roles) = bool_decide (r ∈ roles).
Proof.
  unfold py_in. induction roles as [|x roles IH]; [done|].
  cbn [fmap list_fmap existsb py_eq]. rewrite IH.
  destruct (decide (r = x)) as [->|Hne].
  - rewrite (bool_decide_true (x = x)) by done. cbn [orb].
    symmetry. apply bool_decide_eq_true. by left.
  - rewrite (bool_decide_false (r = x)) by done. cbn [orb].
    apply bool_decide_ext. split; [by right|].
    by intros [?|?]%elem_of_cons.
Qed.

Lemma py_str_roles (roles : list string) : py_str <$> (VStr <$> roles) = roles.
Proof. induction roles; [done|]. cbn. by f_equal. Qed.

(** C2 (amended).  The schema decides every key of the body on that key's
    own value: an unlisted key, a value of the wrong class, a number under or
    over the range and a role outside [VALID_ROLES] each get their own entry
    in [errors], whatever the other keys hold.  If any entry is there, the
    request is answered 400 with all the entries and the state is left as it
    was; if none is there, the body is not empty and the table is
    reachable, the answer is 200 and every key of the body is written and
    reads back. *)
Theorem update_settings_all_or_nothing
    (VALID_ROLES : list string) (body : gmap string value) (s : state) :
  let sch := update_settings_schema VALID_ROLES in
  let errors := Schema_errors sch body in
  let r := update_settings VALID_ROLES (Some (JObject body)) s in
  (∀ k, errors !! k = body !! k ≫= field_error sch k)
  ∧ (∀ k v, body !! k = Some v → fields sch !! k = None →
       errors !! k = Some "This field is not allowed")
  ∧ (∀ k v f, body !! k = Some v → fields sch !! k = Some f →
       isinstance v (field_type f) = false →
       errors !! k = Some ("Expected " +:+ pytype_name (field_type f)
                           +:+ ", got " +:+ type_name v))
  ∧ (∀ k z f lo, body !! k = Some (VInt z) → fields sch !! k = Some f →
       field_type f = TInt → min_value f = Some lo → z < lo →
       errors !! k = Some ("Minimum value is " +:+ pretty lo))
  ∧ (∀ k z f lo hi, body !! k = Some (VInt z) → fields sch !! k = Some f →
       field_type f = TInt → min_value f = Some lo → max_value f = Some hi →
       lo ≤ z → hi < z →
       errors !! k = Some ("Maximum value is " +:+ pretty hi))
  ∧ (∀ role, body !! "default_public_role" = Some (VStr role) →
       role ∉ VALID_ROLES →
       errors !! "default_public_role" =
       Some ("Allowed values are: " +:+ join ", " VALID_ROLES))
  ∧ (errors ≠ ∅ →
       r = (s, error_response "Validation failed" 400
                 (Some "VALIDATION_ERROR") (Some errors)))
  ∧ (errors = ∅ → body ≠ ∅ → reachable s = true →
       statusCode r.2 = 200
       ∧ data r.2 = DataSettings body
       ∧ ∀ k v, body !! k = Some v →
           settings_table r.1 !! k =
             Some {| setting_value := to_attr v; setting_type := type_name v |}
           ∧ (get_setting k VNone r.1).2 = v).
Proof.
  intros sch errors r.
  assert (Herr : ∀ k, errors !! k = body !! k ≫= field_error sch k)
    by apply update_settings_schema_errors.
  split_and!; [done|..].
  - intros k v Hb Hf. rewrite Herr, Hb. cbn. unfold field_error. by rewrite Hf.
  - intros k v f Hb Hf Hty. rewrite Herr, Hb. cbn. unfold field_error.
    rewrite Hf. unfold SchemaField_validate, check_type. rewrite Hty.
    cbn [or_else raise_field ve_details]. by rewrite lookup_singleton_eq.
  - intros k z f lo Hb Hf Hty Hlo Hz. rewrite Herr, Hb. cbn. unfold field_error.
    rewrite Hf. unfold SchemaField_validate, check_type, check_length, check_range.
    rewrite Hty, Hlo. cbn [isinstance as_number or_else].
    destruct (Z.ltb_spec z lo); [|lia].
    cbn [or_else raise_field ve_details]. by rewrite lookup_singleton_eq.
  - intros k z f lo hi Hb Hf Hty Hlo Hhi Hge Hz. rewrite Herr, Hb. cbn.
    unfold field_error.
    rewrite Hf. unfold SchemaField_validate, check_type, check_length, check_range.
    rewrite Hty, Hlo, Hhi. cbn [isinstance as_number or_else].
    destruct (Z.ltb_spec z lo); [lia|]. destruct (Z.ltb_spec hi z); [|lia].
    cbn [or_else raise_field ve_details]. by rewrite lookup_singleton_eq.
  - intros role Hb Hrole. rewrite Herr, Hb. cbn. unfold field_error.
    change (fields sch !! "default_public_role")
      with (Some (role_field VALID_ROLES)).
    unfold SchemaField_validate, check_type, check_length, check_range,
      check_allowed.
    cbn [role_field field_type isinstance min_length max_length as_number
         allowed_values or_else].
    rewrite py_in_roles, bool_decide_false by done.
    cbn [or_else raise_field ve_details].
    by rewrite lookup_singleton_eq, py_str_roles.
  - intros Hne. unfold r, update_settings, validate_request_body, Schema_validate.
    fold sch. fold errors. by rewrite bool_decide_false.
  - intros Hnone Hbody Hr.
    assert (Hchk : ∀ k v, body !! k = Some v →
              check_setting VALID_ROLES k v = None ∧ v ≠ VNone).
    { intros k v Hb. apply schema_accepts_check_setting.
      pose proof (Herr k) as Hk. rewrite Hnone, lookup_empty, Hb in Hk.
      by cbn in Hk. }
    unfold r, update_settings, validate_request_body, Schema_validate.
    fold sch. fold errors. rewrite bool_decide_true by done.
    unfold update_settings_body. rewrite bool_decide_false by done.
    pose proof (validate_loop_lookup VALID_ROLES body) as Hloop.
    cbn zeta in Hloop.
    destruct (foldl (validate_step VALID_ROLES) (∅, ∅) (map_to_list body))
      as [errs validated] eqn:Efold.
    cbn [fst snd] in Hloop.
    assert (errs = ∅) as ->.
    { apply map_eq. intros k. rewrite lookup_empty, (proj1 (Hloop k)).
      destruct (body !! k) as [v|] eqn:Hb; [|done].
      cbn. by apply Hchk. }
    assert (validated = body) as ->.
    { apply map_eq. intros k. rewrite (proj2 (Hloop k)).
      destruct (body !! k) as [v|] eqn:Hb; [|done].
      cbn. by rewrite (proj1 (Hchk k v Hb)). }
    rewrite bool_decide_true by done. cbn [negb].
    destruct (update_settings_reachable body s Hr)
      as (s1 & -> & Hr1 & Hi1 & Ht1 & Hc1).
    assert (Hread : ∀ k v d, body !! k = Some v → (get_setting k d s1).2 = v).
    { intros k v d Hb. apply get_setting_after_update; [done| | |].
      - by rewrite Ht1, Hb.
      - by rewrite Hc1, Hb.
      - by apply (Hchk k). }
    pose proof (read_back_loop s1 (map_to_list body) s1 ∅
                  (λ _ _, eq_refl) eq_refl) as Hrb.
    cbn zeta in Hrb.
    destruct (foldl read_back_step (s1, ∅) (map_to_list body))
      as [s2 updated] eqn:Erb.
    cbn [fst snd] in Hrb. destruct Hrb as (Hget & Ht2 & Hupd).
    assert (updated = body) as ->.
    { apply map_eq. intros k. rewrite Hupd.
      rewrite (foldl_keyed_lookup_map _
        (λ k (_ : value) _, Some (get_setting k VNone s1).2)).
      - destruct (body !! k) as [v|] eqn:Hb; [|done].
        by rewrite (Hread k v VNone Hb).
      - intros acc k0 a k'. cbn [fst snd].
        destruct (decide (k' = k0)) as [->|].
        + by rewrite lookup_insert_eq.
        + by rewrite lookup_insert_ne. }
    cbn [fst snd]. split_and!; [done..|].
    intros k v Hb. split.
    + by rewrite Ht2, Ht1, Hb.
    + rewrite Hget. by apply Hread.
Qed.

(** Witness for C2 (amended): a body of two valid keys on the seeded
    store is answered 200 and both keys read back. *)
Lemma update_settings_all_or_nothing_witness :
  let r := update_settings sample_roles (Some (JObject valid_body)) seeded_state in
  statusCode r.2 = 200
  ∧ data r.2 = DataSettings valid_body
  ∧ (get_setting "min_password_length" VNone r.1).2 = VInt 8
  ∧ (get_setting "default_public_role" VNone r.1).2 = VStr "staff".
Proof.
  destruct (update_settings_all_or_nothing sample_roles valid_body seeded_state)
    as (_ & _ & _ & _ & _ & _ & _ & H).
  destruct H as (H1 & H2 & H3).
  - reflexivity.
  - apply insert_non_empty.
  - reflexivity.
  - split_and!; [exact H1|exact H2|..].
    + exact (proj2 (H3 "min_password_length" (VInt 8) eq_refl)).
    + exact (proj2 (H3 "default_public_role" (VStr "staff") eq_refl)).
Defined.

(** C2 as stated fails: in a body with the valid key [min_password_length]
    and the unlisted key [bogus], the answer is 400 with the one entry for
    [bogus], and the valid key is not written: the state is the one before
    the request and the setting still reads 4. *)
Lemma update_settings_valid_key_not_applied :
  let sch := update_settings_schema sample_roles in
  let r := update_settings sample_roles (Some (JObject mixed_body)) seeded_state in
  mixed_body !! "min_password_length" = Some (VInt 8)
  ∧ field_error sch "min_password_length" (VInt 8) = None
  ∧ r.2 = error_response "Validation failed" 400 (Some "VALIDATION_ERROR")
            (Some {[ "bogus" := "This field is not allowed" ]})
  ∧ r.1 = seeded_state
  ∧ (get_setting "min_password_length" VNone r.1).2 = VInt 4
  ∧ ¬ (∀ k v, mixed_body !! k = Some v → field_error sch k v = None →
         (get_setting k VNone r.1).2 = v).
Proof.
  cbn zeta. split_and!; [reflexivity..|].
  intros H. specialize (H "min_password_length" (VInt 8) eq_refl eq_refl).
  vm_compute in H. discriminate.
Qed.

End SettingsClaims.

(** ** The login handler *)

Module LoginFacts.
Import AppSettings AppSettingsFacts Login.

Lemma get_user_by_email_Some email (us : gmap string User.t) uid u :
  UserDB.get_user_by_email email us = Some (uid, u) →
  us !! uid = Some u ∧ User.email u = email.
Proof.
  unfold UserDB.get_user_by_email. intros H.
  apply head_Some_elem_of in H. apply list_elem_of_filter in H as [He Hin].
  by apply elem_of_map_to_list in Hin.
Qed.

Lemma get_setting_state key d key' d' (s : state) :
  (get_setting key d s).1 = (get_setting key' d' s).1.
Proof. done. Qed.

Section with_capabilities.

Variable caps : capabilities.

(** [login] for an address the store knows, with the three settings named. *)
Lemma login_known now ip email pw (w : world) uid u :
  UserDB.get_user_by_email email (users w) = Some (uid, u) →
  login caps now ip email pw w =
  match lockout_check now uid u (lockout_duration_setting w) (settings_read w) with
  | inl early => early
  | inr (w1, u1) =>
      if truthy (verification_setting w) && negb (User.is_verified u1)
      then (w1, error_response
                  "Account is not verified. Please verify your email and phone."
                  403 None None)
      else if negb (verify_password caps pw (User.password u1))
      then wrong_password now ip email uid
             (max_failed_setting w) (lockout_duration_setting w) w1
      else successful_login caps now ip email uid u1 w1
  end.
Proof.
  intros Hu. unfold login. rewrite Hu.
  destruct (get_setting "max_failed_login_attempts" (VInt 5) (settings w))
    as [st1 mx] eqn:E1.
  destruct (get_setting "account_lockout_duration_minutes" (VInt 30) st1)
    as [st2 dur] eqn:E2.
  destruct (get_setting "email_verification_required" (VBool true) st2)
    as [st3 ver] eqn:E3.
  assert (st1 = (get_setting "max_failed_login_attempts" (VInt 5) (settings w)).1)
    as Hst1 by by rewrite E1.
  assert (st2 = (get_setting "account_lockout_duration_minutes" (VInt 30) st1).1)
    as Hst2 by by rewrite E2.
  assert (mx = max_failed_setting w) as -> by (unfold max_failed_setting; by rewrite E1).
  assert (dur = lockout_duration_setting w) as ->.
  { unfold lockout_duration_setting.
    by rewrite <- (proj1 (get_setting_stable _ _ "max_failed_login_attempts"
                           (VInt 5) _)), <- Hst1, E2. }
  assert (ver = verification_setting w) as ->.
  { unfold verification_setting.
    rewrite <- (proj1 (get_setting_stable _ _ "max_failed_login_attempts"
                         (VInt 5) (settings w))), <- Hst1.
    rewrite <- (proj1 (get_setting_stable _ _ "account_lockout_duration_minutes"
                         (VInt 30) st1)), <- Hst2.
    by rewrite E3. }
  assert (with_settings st3 w = settings_read w) as ->.
  { unfold settings_read. f_equal.
    transitivity (get_setting "email_verification_required" (VBool true) st2).1;
      [by rewrite E3|].
    rewrite Hst2, (proj2 (get_setting_stable _ _ _ _ _)).
    rewrite Hst1, (proj2 (get_setting_stable _ _ _ _ _)). done. }
  done.
Qed.

(** The two ways out of the lockout check. *)
Lemma lockout_check_inl now uid u dur (w0 w1 : world) resp :
  lockout_check now uid u dur w0 = inl (w1, resp) → w1 = w0.
Proof.
  unfold lockout_check. intros H.
  destruct (User.is_locked u); [|done].
  destruct (as_number dur) as [d|]; [|by injection H].
  destruct (UserDB.should_auto_unlock now u d); [done|].
  by destruct (py_eq dur (VInt 0)); injection H.
Qed.

Lemma lockout_check_inr now uid u dur (w0 w1 : world) u1 :
  lockout_check now uid u dur w0 = inr (w1, u1) →
  (User.is_locked u = false ∧ w1 = w0 ∧ u1 = u)
  ∨ (User.is_locked u = true
     ∧ (∃ d, as_number dur = Some d ∧ UserDB.should_auto_unlock now u d = true)
     ∧ w1 = with_users (UserDB.unlock_account uid (users w0)) w0
     ∧ u1 = User.set_failed 0 (User.set_lock false (User.locked_at u) u)).
Proof.
  unfold lockout_check. intros H.
  destruct (User.is_locked u) eqn:Hl.
  - destruct (as_number dur) as [d|] eqn:Hd; [|done].
    destruct (UserDB.should_auto_unlock now u d) eqn:Hs.
    + injection H as <- <-. right. split_and!; eauto.
    + by destruct (py_eq dur (VInt 0)).
  - injection H as <- <-. by left.
Qed.

Lemma lockout_check_unlocked now uid u dur (w0 : world) :
  User.is_locked u = false → lockout_check now uid u dur w0 = inr (w0, u).
Proof. unfold lockout_check. by intros ->. Qed.

Lemma lockout_check_still_locked now uid u dur d (w0 : world) :
  User.is_locked u = true → as_number dur = Some d →
  UserDB.should_auto_unlock now u d = false →
  lockout_check now uid u dur w0 =
  inl (w0, error_response
             (if py_eq dur (VInt 0)
              then "Account is permanently locked. Contact support."
              else "Account is locked due to too many failed login attempts. Try again later.")
             403 None None).
Proof.
  unfold lockout_check. intros -> -> ->. by destruct (py_eq dur (VInt 0)).
Qed.

Lemma lockout_check_elapsed now uid u dur d t (w0 : world) :
  User.is_locked u = true → as_number dur = Some d →
  User.locked_at u = Some t → 0 < d → d * 60 ≤ now - t →
  lockout_check now uid u dur w0 =
  inr (with_users (UserDB.unlock_account uid (users w0)) w0,
       User.set_failed 0 (User.set_lock false (User.locked_at u) u)).
Proof.
  unfold lockout_check, UserDB.should_auto_unlock. intros -> -> Ht Hd He.
  rewrite Ht. destruct (Z.ltb_spec 0 d); [|lia].
  destruct (Z.leb_spec (d * 60) (now - t)); [done|lia].
Qed.

(** The password branch, by the side of the threshold the new count
    falls on. *)
Lemma wrong_password_below now ip email uid mx dur m (w1 : world) u :
  users w1 !! uid = Some u → as_number mx = Some m →
  User.failed_login_attempts u + 1 < m →
  wrong_password now ip email uid mx dur w1 =
  (record_attempt ip email false
     (with_users (alter (User.set_failed (User.failed_login_attempts u + 1))
                        uid (users w1)) w1),
   error_response
     ("Invalid email or password. "
      +:+ pretty (m - (User.failed_login_attempts u + 1))
      +:+ " attempts remaining.") 401 None None).
Proof.
  intros Hu Hm Hlt. unfold wrong_password, UserDB.increment_failed_attempts.
  rewrite Hu, Hm. cbn [fmap option_fmap option_map default]. unfold id.
  destruct (Z.leb_spec m (User.failed_login_attempts u + 1)); [lia|done].
Qed.

Lemma wrong_password_reached now ip email uid mx dur m (w1 : world) u :
  users w1 !! uid = Some u → as_number mx = Some m →
  m ≤ User.failed_login_attempts u + 1 →
  ∃ msg,
    wrong_password now ip email uid mx dur w1 =
    (with_users
       (UserDB.lock_account now uid
          (alter (User.set_failed (User.failed_login_attempts u + 1))
                 uid (users w1))) w1,
     error_response msg 403 None None).
Proof.
  intros Hu Hm Hle. unfold wrong_password, UserDB.increment_failed_attempts.
  rewrite Hu, Hm. cbn [fmap option_fmap option_map default]. unfold id.
  destruct (Z.leb_spec m (User.failed_login_attempts u + 1)); [|lia].
  destruct (py_eq dur (VInt 0)); eauto.
Qed.

Lemma lockout_duration_setting_read (w : world) :
  lockout_duration_setting (settings_read w) = lockout_duration_setting w.
Proof.
  unfold lockout_duration_setting, settings_read. cbn [settings with_settings].
  apply get_setting_stable.
Qed.

Lemma lockout_check_inr_user now uid u dur (w0 w1 : world) u1 :
  users w0 !! uid = Some u →
  lockout_check now uid u dur w0 = inr (w1, u1) →
  users w1 !! uid = Some u1
  ∧ login_attempts w1 = login_attempts w0
  ∧ User.is_verified u1 = User.is_verified u
  ∧ User.password u1 = User.password u.
Proof.
  intros Hlook H.
  apply lockout_check_inr in H as [(_ & -> & ->)|(_ & _ & -> & ->)]; [done|].
  cbn [users with_users login_attempts]. split_and!; try done.
  unfold UserDB.unlock_account. by rewrite lookup_alter_eq, Hlook.
Qed.

End with_capabilities.

End LoginFacts.

Module LoginClaims.
Import AppSettings AppSettingsFacts Login LoginFacts Samples.

(** What a wrong password does to a known, unlocked, verified account. *)
Lemma login_wrong_password_counts_aux
    (caps : capabilities) (now : Z) (ip email pw : string) (w : world)
    (uid : string) (u : User.t) (m : Z) :
  UserDB.get_user_by_email email (users w) = Some (uid, u) →
  User.is_locked u = false →
  User.is_verified u = true →
  verify_password caps pw (User.password u) = false →
  as_number (max_failed_setting w) = Some m →
  let n := User.failed_login_attempts u + 1 in
  let r := login caps now ip email pw w in
  (m ≤ n →
     users r.1 !! uid = Some (User.set_lock true (Some now) (User.set_failed n u))
     ∧ login_attempts r.1 = login_attempts w
     ∧ statusCode r.2 = 403)
  ∧ (n < m →
     (users r.1 !! uid = Some (User.set_failed n u)
      ∧ login_attempts r.1 =
          (login_attempts w ++
           [ {| attempt_ip := ip; attempt_email := email;
                attempt_success := false |} ])%list)
     ∧ r.2 = error_response
               ("Invalid email or password. " +:+ pretty (m - n)
                +:+ " attempts remaining.") 401 None None).
Proof.
  intros Hu Hl Hv Hpw Hm n r.
  destruct (get_user_by_email_Some _ _ _ _ Hu) as [Hlook _].
  assert (Hr : r = wrong_password now ip email uid (max_failed_setting w)
                     (lockout_duration_setting w) (settings_read w)).
  { unfold r. rewrite (login_known caps now ip email pw w uid u Hu).
    rewrite lockout_check_unlocked by done.
    by rewrite Hv, andb_false_r, Hpw. }
  split.
  - intros Hle.
    destruct (wrong_password_reached now ip email uid (max_failed_setting w)
                (lockout_duration_setting w) m (settings_read w) u)
      as [msg Hw]; [done..|].
    rewrite Hr, Hw.
    cbn [fst snd users login_attempts with_users statusCode error_response].
    split_and!; [|done..].
    unfold UserDB.lock_account. rewrite !lookup_alter_eq.
    cbn [settings_read users with_settings]. by rewrite Hlook.
  - intros Hlt.
    rewrite Hr, (wrong_password_below now ip email uid (max_failed_setting w)
                   (lockout_duration_setting w) m (settings_read w) u)
      by done.
    cbn [fst snd users login_attempts with_users record_attempt].
    split_and!; [|done..].
    rewrite lookup_alter_eq.
    cbn [settings_read users with_settings]. by rewrite Hlook.
Qed.

(** C5.  A wrong password for a known, unlocked, verified account adds one
    to the stored counter: afterwards the stored [failed_login_attempts] is
    the old count plus one.  If the new count reaches the configured
    [max_failed_login_attempts], the account is stored with
    [is_locked = true] and [locked_at = now] and the answer is 403;
    otherwise the stored [is_locked] is still false and the 401 answer
    states [threshold - new count] remaining attempts. *)
Theorem login_wrong_password_counts
    (caps : capabilities) (now : Z) (ip email pw : string) (w : world)
    (uid : string) (u : User.t) (m : Z) :
  UserDB.get_user_by_email email (users w) = Some (uid, u) →
  User.is_locked u = false →
  User.is_verified u = true →
  verify_password caps pw (User.password u) = false →
  as_number (max_failed_setting w) = Some m →
  let n := User.failed_login_attempts u + 1 in
  let r := login caps now ip email pw w in
  (m ≤ n →
     users r.1 !! uid = Some (User.set_lock true (Some now) (User.set_failed n u))
     ∧ User.failed_login_attempts <$> users r.1 !! uid = Some n
     ∧ User.is_locked <$> users r.1 !! uid = Some true
     ∧ User.locked_at <$> users r.1 !! uid = Some (Some now)
     ∧ statusCode r.2 = 403)
  ∧ (n < m →
     users r.1 !! uid = Some (User.set_failed n u)
     ∧ User.failed_login_attempts <$> users r.1 !! uid = Some n
     ∧ User.is_locked <$> users r.1 !! uid = Some false
     ∧ r.2 = error_response
               ("Invalid email or password. " +:+ pretty (m - n)
                +:+ " attempts remaining.") 401 None None).
Proof.
  intros Hu Hl Hv Hpw Hm n r.
  destruct (login_wrong_password_counts_aux caps now ip email pw w uid u m
              Hu Hl Hv Hpw Hm) as [Hreached Hbelow].
  split.
  - intros Hle. destruct (Hreached Hle) as (Hstored & _ & Hstatus).
    subst r. rewrite Hstored. by split_and!.
  - intros Hlt. destruct (Hbelow Hlt) as ((Hstored & _) & Hresp).
    subst r. rewrite Hstored. cbn [fmap option_fmap option_map User.is_locked
                          User.failed_login_attempts User.set_failed].
    by rewrite Hl.
Qed.

(** Witness for C5: a wrong password for alice, who has one earlier
    failure, under the threshold 5. *)
Lemma login_wrong_password_counts_witness :
  let r := login sample_caps 2000 "198.51.100.7" "alice@example.com" "guess"
             sample_world in
  users r.1 !! "u-alice" = Some (User.set_failed 2 alice)
  ∧ User.failed_login_attempts <$> users r.1 !! "u-alice" = Some 2
  ∧ User.is_locked <$> users r.1 !! "u-alice" = Some false
  ∧ r.2 = error_response "Invalid email or password. 3 attempts remaining."
            401 None None.
Proof.
  apply (proj2 (login_wrong_password_counts sample_caps 2000 "198.51.100.7"
                  "alice@example.com" "guess" sample_world "u-alice" alice 5
                  eq_refl eq_refl eq_refl eq_refl eq_refl)).
  reflexivity.
Defined.

(** One denied request against a permanently locked account. *)
Lemma permanent_lock_step (caps : capabilities) now ip email pw (w : world) uid u :
  UserDB.get_user_by_email email (users w) = Some (uid, u) →
  User.is_locked u = true →
  lockout_duration_setting w = VInt 0 →
  login caps now ip email pw w =
  (settings_read w,
   error_response "Account is permanently locked. Contact support." 403
     None None).
Proof.
  intros Hu Hl Hd. rewrite (login_known caps now ip email pw w uid u Hu).
  by rewrite (lockout_check_still_locked now uid u _ 0), Hd
    by (by rewrite ?Hd).
Qed.

(** C6.  With [account_lockout_duration_minutes] read as 0, every login
    request for a locked account, at whatever time and with whatever
    password, is answered "Account is permanently locked. Contact support."
    (403), and after any run of such requests the accounts, the attempt log
    and the refresh tokens are what they were. *)
Theorem permanent_lock_never_unlocks
    (caps : capabilities) (reqs : list request) (email : string) (w : world)
    (uid : string) (u : User.t) :
  UserDB.get_user_by_email email (users w) = Some (uid, u) →
  User.is_locked u = true →
  lockout_duration_setting w = VInt 0 →
  Forall (λ q, req_email q = email) reqs →
  let r := logins caps reqs w in
  r.2 = replicate (List.length reqs)
          (error_response "Account is permanently locked. Contact support."
             403 None None)
  ∧ users r.1 = users w
  ∧ login_attempts r.1 = login_attempts w
  ∧ refresh_tokens r.1 = refresh_tokens w.
Proof.
  intros Hu Hl Hd Hreqs. cbn zeta. revert w Hu Hd.
  induction Hreqs as [|q reqs Hq _ IH]; intros w Hu Hd; [done|].
  cbn [logins List.length replicate].
  rewrite <- Hq in Hu.
  rewrite (permanent_lock_step caps _ _ _ _ w uid u Hu Hl Hd).
  rewrite Hq in Hu.
  specialize (IH (settings_read w) Hu).
  rewrite lockout_duration_setting_read in IH. specialize (IH Hd).
  destruct (logins caps reqs (settings_read w)) as [w2 resps].
  cbn [fst snd] in *. destruct IH as (-> & -> & -> & ->). done.
Qed.

(** Witness for C6: carol, locked at second 1000, asks three times, the
    last time a year later and with her password. *)
Lemma permanent_lock_never_unlocks_witness :
  let reqs :=
    [ {| req_now := 1060; req_ip := "198.51.100.7";
         req_email := "carol@example.com"; req_password := "guess" |};
      {| req_now := 90000; req_ip := "198.51.100.7";
         req_email := "carol@example.com"; req_password := "battery staple" |};
      {| req_now := 31537000; req_ip := "198.51.100.7";
         req_email := "carol@example.com"; req_password := "battery staple" |} ] in
  let r := logins sample_caps reqs permanent_world in
  r.2 = replicate 3
          (error_response "Account is permanently locked. Contact support."
             403 None None)
  ∧ users r.1 = users permanent_world
  ∧ login_attempts r.1 = login_attempts permanent_world
  ∧ refresh_tokens r.1 = refresh_tokens permanent_world.
Proof.
  intros reqs.
  apply (permanent_lock_never_unlocks sample_caps reqs "carol@example.com"
           permanent_world "u-carol" carol eq_refl eq_refl eq_refl).
  repeat constructor.
Defined.

(** C4.  For a known account the checks run in the order lockout,
    verification, credential.  A locked account whose lock has not elapsed
    gets the lockout answer whatever its verification state and whatever the
    password; once the lockout check lets the request through (the account
    is unlocked, or its lock has elapsed and it is unlocked on the spot), an
    unverified account under required verification gets the verification
    answer whatever the password; and a locked account whose lock has
    elapsed, presenting the correct password, is logged in by that same
    request, after which the stored account has [is_locked = false] and
    [failed_login_attempts = 0]. *)
Theorem login_check_order
    (caps : capabilities) (now : Z) (ip email pw : string) (w : world)
    (uid : string) (u : User.t) :
  UserDB.get_user_by_email email (users w) = Some (uid, u) →
  let dur := lockout_duration_setting w in
  let ver := verification_setting w in
  let r := login caps now ip email pw w in
  let unverified :=
    error_response
      "Account is not verified. Please verify your email and phone." 403
      None None in
  (∀ d, User.is_locked u = true → as_number dur = Some d →
     UserDB.should_auto_unlock now u d = false →
     r = (settings_read w,
          error_response
            (if py_eq dur (VInt 0)
             then "Account is permanently locked. Contact support."
             else "Account is locked due to too many failed login attempts. Try again later.")
            403 None None))
  ∧ (User.is_locked u = false → truthy ver = true →
     User.is_verified u = false →
     r = (settings_read w, unverified))
  ∧ (∀ d t, User.is_locked u = true → as_number dur = Some d →
       User.locked_at u = Some t → 0 < d → d * 60 ≤ now - t →
       truthy ver = true → User.is_verified u = false →
       r = (with_users (UserDB.unlock_account uid (users w)) (settings_read w),
            unverified))
  ∧ (∀ d t, User.is_locked u = true → as_number dur = Some d →
       User.locked_at u = Some t → 0 < d → d * 60 ≤ now - t →
       truthy ver && negb (User.is_verified u) = false →
       verify_password caps pw (User.password u) = true →
       statusCode r.2 = 200
       ∧ success r.2 = true
       ∧ users r.1 !! uid =
           Some (User.set_failed 0 (User.set_lock false (User.locked_at u) u))
       ∧ User.is_locked <$> users r.1 !! uid = Some false
       ∧ User.failed_login_attempts <$> users r.1 !! uid = Some 0
       ∧ login_attempts r.1 =
           (login_attempts w ++
            [ {| attempt_ip := ip; attempt_email := email;
                 attempt_success := true |} ])%list).
Proof.
  intros Hu dur ver r unverified.
  destruct (get_user_by_email_Some _ _ _ _ Hu) as [Hlook _].
  assert (Hr := login_known caps now ip email pw w uid u Hu).
  fold r dur ver in Hr.
  split_and!.
  - intros d Hl Hd Hs. rewrite Hr.
    by rewrite (lockout_check_still_locked now uid u dur d).
  - intros Hl Hv Hn. rewrite Hr, lockout_check_unlocked by done.
    by rewrite Hv, Hn.
  - intros d t Hl Hd Ht Hpos He Hv Hn. rewrite Hr.
    rewrite (lockout_check_elapsed now uid u dur d t) by done.
    cbn [User.is_verified User.set_failed User.set_lock].
    by rewrite Hv, Hn.
  - intros d t Hl Hd Ht Hpos He Hgate Hpw. rewrite Hr.
    rewrite (lockout_check_elapsed now uid u dur d t) by done.
    cbn [User.is_verified User.password User.set_failed User.set_lock].
    rewrite Hgate, Hpw. cbn [negb].
    unfold successful_login, login_success_response.
    cbn [fst snd statusCode success success_response users login_attempts
         with_users record_attempt create_token settings_read with_settings].
    assert (Hstored :
      UserDB.reset_failed_attempts uid (UserDB.unlock_account uid (users w))
        !! uid =
      Some (User.set_failed 0 (User.set_lock false (User.locked_at u) u))).
    { unfold UserDB.reset_failed_attempts, UserDB.unlock_account.
      by rewrite !lookup_alter_eq, Hlook. }
    rewrite Hstored. by split_and!.
Qed.

(** Witness for C4: carol, locked at second 1000 under a lockout of 30
    minutes, logs in with her password at second 2800. *)
Lemma login_check_order_witness :
  let r := login sample_caps 2800 "198.51.100.7" "carol@example.com"
             "battery staple" sample_world in
  statusCode r.2 = 200
  ∧ success r.2 = true
  ∧ users r.1 !! "u-carol" =
      Some (User.set_failed 0 (User.set_lock false (Some 1000) carol))
  ∧ User.is_locked <$> users r.1 !! "u-carol" = Some false
  ∧ User.failed_login_attempts <$> users r.1 !! "u-carol" = Some 0
  ∧ login_attempts r.1 =
      [ {| attempt_ip := "198.51.100.7"; attempt_email := "carol@example.com";
           attempt_success := true |} ].
Proof.
  destruct (login_check_order sample_caps 2800 "198.51.100.7"
              "carol@example.com" "battery staple" sample_world "u-carol" carol
              eq_refl) as (_ & _ & _ & H).
  apply (H 30 1000); reflexivity || lia.
Defined.

(** C1 (amended).  The answer to an unknown address and the answer to a
    wrong password for a known, unlocked, verified account that stays under
    the threshold agree on the status 401 and on every field of the body but
    the message: the first says "Invalid email or password", the second
    appends ". N attempts remaining." with N the threshold minus the new
    count.  The two answers are therefore never equal. *)
Theorem login_unknown_vs_wrong_password
    (caps : capabilities) (now : Z) (ip unknown known pw1 pw2 : string)
    (w : world) (uid : string) (u : User.t) (m : Z) :
  UserDB.get_user_by_email unknown (users w) = None →
  UserDB.get_user_by_email known (users w) = Some (uid, u) →
  User.is_locked u = false →
  User.is_verified u = true →
  verify_password caps pw2 (User.password u) = false →
  as_number (max_failed_setting w) = Some m →
  User.failed_login_attempts u + 1 < m →
  let r1 := (login caps now ip unknown pw1 w).2 in
  let r2 := (login caps now ip known pw2 w).2 in
  statusCode r1 = 401 ∧ statusCode r2 = 401
  ∧ success r1 = success r2
  ∧ status_code r1 = status_code r2
  ∧ data r1 = data r2
  ∧ error r1 = error r2
  ∧ message r1 = "Invalid email or password"
  ∧ message r2 =
      message r1 +:+ ". "
      +:+ pretty (m - (User.failed_login_attempts u + 1))
      +:+ " attempts remaining."
  ∧ r1 ≠ r2.
Proof.
  intros Hnone Hu Hl Hv Hpw Hm Hlt r1 r2.
  assert (H1 : r1 = error_response "Invalid email or password" 401 None None).
  { unfold r1, login. by rewrite Hnone. }
  assert (H2 : r2 = error_response
                      ("Invalid email or password. "
                       +:+ pretty (m - (User.failed_login_attempts u + 1))
                       +:+ " attempts remaining.") 401 None None).
  { exact (proj2 (proj2 (login_wrong_password_counts_aux caps now ip known pw2
                           w uid u m Hu Hl Hv Hpw Hm) Hlt)). }
  rewrite H1, H2. by split_and!.
Qed.

(** Witness for C1 (amended): an unknown address against alice with a
    wrong password. *)
Lemma login_unknown_vs_wrong_password_witness :
  let r1 := (login sample_caps 2000 "198.51.100.7" "bob@example.com" "guess"
               sample_world).2 in
  let r2 := (login sample_caps 2000 "198.51.100.7" "alice@example.com" "guess"
               sample_world).2 in
  statusCode r1 = 401 ∧ statusCode r2 = 401
  ∧ success r1 = success r2
  ∧ status_code r1 = status_code r2
  ∧ data r1 = data r2
  ∧ error r1 = error r2
  ∧ message r1 = "Invalid email or password"
  ∧ message r2 = message r1 +:+ ". " +:+ pretty (5 - (1 + 1))
                 +:+ " attempts remaining."
  ∧ r1 ≠ r2.
Proof.
  apply (login_unknown_vs_wrong_password sample_caps 2000 "198.51.100.7"
           "bob@example.com" "alice@example.com" "guess" "guess" sample_world
           "u-alice" alice 5 eq_refl eq_refl eq_refl eq_refl eq_refl eq_refl).
  reflexivity.
Defined.

(** C1 as stated fails: the store does not know bob and knows alice
    (unlocked, verified, one earlier failure, threshold 5); the same wrong
    password gets two different messages, so the two answers differ. *)
Lemma login_enumeration_distinguishable :
  let r1 := (login sample_caps 2000 "198.51.100.7" "bob@example.com" "guess"
               sample_world).2 in
  let r2 := (login sample_caps 2000 "198.51.100.7" "alice@example.com" "guess"
               sample_world).2 in
  UserDB.get_user_by_email "bob@example.com" (users sample_world) = None
  ∧ UserDB.get_user_by_email "alice@example.com" (users sample_world)
    = Some ("u-alice", alice)
  ∧ message r1 = "Invalid email or password"
  ∧ message r2 = "Invalid email or password. 3 attempts remaining."
  ∧ r1 ≠ r2.
Proof.
  cbn zeta. split_and!; [reflexivity..|].
  intros H. apply (f_equal message) in H. vm_compute in H. discriminate.
Qed.

(** C3 (amended).  An unknown address, a wrong password that leaves the
    count under the threshold and a successful login each append exactly one
    record with the source address, the address tried and the outcome; a
    request the lockout check turns away and a request turned away for a
    missing verification append none. *)
Theorem login_attempt_records
    (caps : capabilities) (now : Z) (ip email pw : string) (w : world) :
  let r := login caps now ip email pw w in
  let record ok :=
    {| attempt_ip := ip; attempt_email := email; attempt_success := ok |} in
  (UserDB.get_user_by_email email (users w) = None →
     login_attempts r.1 = (login_attempts w ++ [record false])%list)
  ∧ (∀ uid u,
       UserDB.get_user_by_email email (users w) = Some (uid, u) →
       let check :=
         lockout_check now uid u (lockout_duration_setting w) (settings_read w) in
       let gate :=
         truthy (verification_setting w) && negb (User.is_verified u) in
       (∀ w1 resp, check = inl (w1, resp) →
          r.2 = resp ∧ login_attempts r.1 = login_attempts w)
       ∧ (∀ w1 u1, check = inr (w1, u1) → gate = true →
            r.2 = error_response
                    "Account is not verified. Please verify your email and phone."
                    403 None None
            ∧ login_attempts r.1 = login_attempts w)
       ∧ (∀ w1 u1, check = inr (w1, u1) → gate = false →
            verify_password caps pw (User.password u) = true →
            success r.2 = true
            ∧ login_attempts r.1 = (login_attempts w ++ [record true])%list)
       ∧ (∀ w1 u1 m, check = inr (w1, u1) → gate = false →
            verify_password caps pw (User.password u) = false →
            as_number (max_failed_setting w) = Some m →
            User.failed_login_attempts u1 + 1 < m →
            statusCode r.2 = 401
            ∧ login_attempts r.1 = (login_attempts w ++ [record false])%list)).
Proof.
  intros r record. split.
  - intros Hnone. unfold r, login. by rewrite Hnone.
  - intros uid u Hu check gate.
    destruct (get_user_by_email_Some _ _ _ _ Hu) as [Hlook _].
    assert (Hr := login_known caps now ip email pw w uid u Hu).
    fold r check in Hr.
    assert (Hinr : ∀ w1 u1, check = inr (w1, u1) →
              users w1 !! uid = Some u1
              ∧ login_attempts w1 = login_attempts w
              ∧ User.is_verified u1 = User.is_verified u
              ∧ User.password u1 = User.password u).
    { intros w1 u1 Hc.
      by apply (lockout_check_inr_user now uid u (lockout_duration_setting w)
                  (settings_read w)). }
    split_and!.
    + intros w1 resp Hc. rewrite Hr, Hc. cbn [fst snd].
      by rewrite (lockout_check_inl _ _ _ _ _ _ _ Hc).
    + intros w1 u1 Hc Hg. destruct (Hinr w1 u1 Hc) as (_ & Hlog & Hv & _).
      rewrite Hr, Hc, Hv. fold gate. by rewrite Hg.
    + intros w1 u1 Hc Hg Hpw. destruct (Hinr w1 u1 Hc) as (_ & Hlog & Hv & Hp).
      rewrite Hr, Hc, Hv, Hp. fold gate. rewrite Hg, Hpw. cbn [negb].
      unfold successful_login, login_success_response.
      cbn [fst snd success success_response login_attempts with_users
           record_attempt create_token].
      by rewrite Hlog.
    + intros w1 u1 m Hc Hg Hpw Hm Hlt.
      destruct (Hinr w1 u1 Hc) as (Hlook1 & Hlog & Hv & Hp).
      rewrite Hr, Hc, Hv, Hp. fold gate. rewrite Hg, Hpw. cbn [negb].
      rewrite (wrong_password_below now ip email uid _ _ m w1 u1) by done.
      cbn [fst snd statusCode error_response login_attempts with_users
           record_attempt].
      by rewrite Hlog.
Qed.

(** Witness for C3 (amended): alice's wrong password leaves one failed
    record. *)
Lemma login_attempt_records_witness :
  let r := login sample_caps 2000 "198.51.100.7" "alice@example.com" "guess"
             sample_world in
  statusCode r.2 = 401
  ∧ login_attempts r.1 =
      [ {| attempt_ip := "198.51.100.7"; attempt_email := "alice@example.com";
           attempt_success := false |} ].
Proof.
  destruct (login_attempt_records sample_caps 2000 "198.51.100.7"
              "alice@example.com" "guess" sample_world) as [_ H].
  destruct (H "u-alice" alice eq_refl) as (_ & _ & _ & H4).
  apply (H4 (settings_read sample_world) alice 5); reflexivity.
Defined.

(** C3 as stated fails: carol is locked (at second 1000, lockout 30
    minutes); her request at second 1060 is answered 403 and the attempt log
    is as empty as before: no record is written. *)
Lemma login_locked_denial_writes_no_record :
  let r := login sample_caps 1060 "198.51.100.7" "carol@example.com"
             "battery staple" sample_world in
  statusCode r.2 = 403
  ∧ login_attempts sample_world = []
  ∧ login_attempts r.1 = []
  ∧ ¬ (∃ a, login_attempts r.1 = (login_attempts sample_world ++ [a])%list).
Proof.
  cbn zeta. split_and!; [reflexivity..|].
  intros [a H]. vm_compute in H. discriminate.
Qed.

(** The wrong password that takes erin from 4 to 5 failures locks her
    account and returns before the attempt is recorded. *)
Example login_lock_transition_writes_no_record :
  let r := login sample_caps 2000 "198.51.100.7" "erin@example.com" "guess"
             sample_world in
  statusCode r.2 = 403
  ∧ message r.2 = "Account locked for 30 minutes due to 5 failed login attempts"
  ∧ users r.1 !! "u-erin" =
      Some (User.set_lock true (Some 2000) (User.set_failed 5 erin))
  ∧ login_attempts r.1 = [].
Proof. cbn zeta. split_and!; reflexivity. Qed.

End LoginClaims.

(** * Further properties *)

(** ** The settings store *)

Module AppSettingsMore.
Import AppSettings AppSettingsFacts SettingsFacts Samples.

Lemma DEFAULT_SETTINGS_values key d0 :
  DEFAULT_SETTINGS_dict !! key = Some d0 → d0 ≠ VNone.
Proof.
  intros H. apply elem_of_list_to_map_2 in H. unfold DEFAULT_SETTINGS in H.
  repeat (apply elem_of_cons in H as [H|H]); [..|by apply elem_of_nil in H];
    by injection H as -> ->.
Qed.

(** For a key of [DEFAULT_SETTINGS], [get_setting] never answers [None]:
    whatever the cache holds, whatever default the caller passes and whether
    or not the table can be reached. *)
Theorem get_setting_default_key_not_None (key : string) (d : value) (s : state) :
  is_Some (DEFAULT_SETTINGS_dict !! key) →
  (get_setting key d s).2 ≠ VNone.
Proof.
  intros [d0 Hd0]. unfold get_setting. cbn [snd]. rewrite Hd0.
  pose proof (DEFAULT_SETTINGS_values key d0 Hd0).
  by destruct (default d _).
Qed.

Lemma get_setting_default_key_not_None_witness :
  (get_setting "min_password_length" VNone outage_state).2 ≠ VNone.
Proof.
  apply get_setting_default_key_not_None. by exists (VInt 4).
Defined.

(** Once the cache is loaded the readers no longer look at the table: a
    table changed behind the cache's back gives the same answers, until
    [clear_cache], after which a reachable table is read afresh. *)
Theorem loaded_cache_hides_table (s : state) (t' : gmap string item) :
  _cache_initialized s = true →
  let s' := {| settings_table := t'; reachable := reachable s;
               _settings_cache := _settings_cache s;
               _cache_initialized := _cache_initialized s |} in
  (get_all_settings s').2 = (get_all_settings s).2
  ∧ (∀ key d, (get_setting key d s').2 = (get_setting key d s).2)
  ∧ (reachable s = true →
     (get_all_settings (clear_cache s')).2 =
     (λ it, _convert_dynamodb_types (setting_value it)) <$> t').
Proof.
  intros Hi s'. split_and!.
  - unfold get_all_settings. cbn [_cache_initialized s']. by rewrite Hi.
  - intros key d. unfold get_setting. cbn [_cache_initialized s']. by rewrite Hi.
  - intros Hr. unfold get_all_settings, clear_cache, load_settings.
    cbn [_cache_initialized reachable s']. by rewrite Hr.
Qed.

Lemma loaded_cache_hides_table_witness :
  let s := (get_all_settings seeded_state).1 in
  let s' := {| settings_table := ∅; reachable := reachable s;
               _settings_cache := _settings_cache s;
               _cache_initialized := _cache_initialized s |} in
  (get_all_settings s').2 = (get_all_settings s).2
  ∧ (∀ key d, (get_setting key d s').2 = (get_setting key d s).2)
  ∧ (reachable s = true →
     (get_all_settings (clear_cache s')).2 =
     (λ it, _convert_dynamodb_types (setting_value it)) <$> ∅).
Proof.
  apply (loaded_cache_hides_table (get_all_settings seeded_state).1 ∅).
  reflexivity.
Defined.

Lemma update_settings_items_unreachable l (s : state) :
  reachable s = false → l ≠ [] → update_settings_items l s = Raises s.
Proof.
  intros Hr Hl. destruct l as [|[k v] l]; [done|].
  cbn [update_settings_items]. unfold update_setting. by rewrite Hr.
Qed.

(** With the table unreachable a write raises before anything is changed:
    [update_setting] and a non-empty [update_settings] leave table and cache
    as they were.  An empty batch returns without touching the table. *)
Theorem update_unreachable_changes_nothing (s : state) :
  reachable s = false →
  (∀ key v, update_setting key v s = Raises s)
  ∧ (∀ m, m ≠ ∅ → update_settings m s = Raises s)
  ∧ update_settings ∅ s = Returns s.
Proof.
  intros Hr. split_and!.
  - intros key v. unfold update_setting. by rewrite Hr.
  - intros m Hm. unfold update_settings.
    apply update_settings_items_unreachable; [done|].
    by rewrite map_to_list_empty_iff.
  - unfold update_settings. by rewrite map_to_list_empty.
Qed.

Lemma update_unreachable_changes_nothing_witness :
  update_setting "min_password_length" (VInt 8) outage_state
  = Raises outage_state.
Proof.
  apply (update_unreachable_changes_nothing outage_state eq_refl).
Defined.

(** A batch written to a reachable table shows in the next
    [get_all_settings] as the batch laid over the previous answer, and the
    keys outside the batch read as before. *)
Theorem update_settings_then_get_all (m : gmap string value) (s : state) :
  reachable s = true →
  ∃ s1, update_settings m s = Returns s1
    ∧ (get_all_settings s1).2 = m ∪ (get_all_settings s).2
    ∧ (∀ key d, m !! key = None →
         (get_setting key d s1).2 = (get_setting key d s).2).
Proof.
  intros Hr.
  destruct (update_settings_reachable m s Hr) as (s1 & Hs1 & Hr1 & Hi1 & Ht & Hc).
  exists s1. split; [done|].
  assert (Hview : ∀ k,
    _settings_cache (if _cache_initialized s1 then s1 else (load_settings s1).1)
      !! k =
    match m !! k with
    | Some v => Some v
    | None =>
        _settings_cache (if _cache_initialized s then s else (load_settings s).1)
          !! k
    end).
  { intros k. rewrite Hi1. destruct (_cache_initialized s).
    - apply Hc.
    - rewrite !load_settings_reachable by done. cbn [_settings_cache].
      rewrite !lookup_fmap, Ht. destruct (m !! k) as [v|]; [|done].
      cbn. by rewrite convert_to_attr. }
  split.
  - unfold get_all_settings. cbn [snd]. apply map_eq. intros k.
    rewrite Hview, lookup_union. by destruct (m !! k), (_ !! k).
  - intros key d Hk. unfold get_setting. cbn [snd]. by rewrite Hview, Hk.
Qed.

Lemma update_settings_then_get_all_witness :
  ∃ s1, update_settings valid_body seeded_state = Returns s1
    ∧ (get_all_settings s1).2 = valid_body ∪ (get_all_settings seeded_state).2
    ∧ (∀ key d, valid_body !! key = None →
         (get_setting key d s1).2 = (get_setting key d seeded_state).2).
Proof.
  apply (update_settings_then_get_all valid_body seeded_state). reflexivity.
Defined.

(** The first read after [initialize_settings] has seeded a reachable table
    answers the defaults, laid over whatever else the table held. *)
Theorem initialize_then_get_all (s : state) :
  reachable s = true →
  settings_table s !! "_initialized" = None →
  _cache_initialized s = false →
  (get_all_settings (state_of (initialize_settings s))).2 =
  DEFAULT_SETTINGS_dict
  ∪ ((λ it, _convert_dynamodb_types (setting_value it)) <$> settings_table s).
Proof.
  intros Hr Hnone Hi. unfold initialize_settings. rewrite Hr, Hnone.
  cbn [state_of]. unfold get_all_settings. cbn [_cache_initialized].
  rewrite Hi, load_settings_reachable by done. cbn [snd _settings_cache settings_table].
  apply map_eq. intros k.
  rewrite lookup_fmap, put_items_lookup by apply DEFAULT_SETTINGS_keys_NoDup.
  rewrite lookup_union, lookup_fmap. fold DEFAULT_SETTINGS_dict.
  destruct (DEFAULT_SETTINGS_dict !! k) as [v|]; cbn.
  - rewrite convert_to_attr. by destruct (settings_table s !! k).
  - by destruct (settings_table s !! k).
Qed.

Lemma initialize_then_get_all_witness :
  (get_all_settings (state_of (initialize_settings fresh_state))).2 =
  DEFAULT_SETTINGS_dict
  ∪ ((λ it, _convert_dynamodb_types (setting_value it)) <$> ∅).
Proof.
  apply (initialize_then_get_all fresh_state); reflexivity.
Defined.

End AppSettingsMore.

(** ** Responses and the schema validator *)

Module SchemaMore.
Import SchemaValidator SchemaFacts Schemas Samples.

(** The [error] entry of an error response is [None] exactly when neither a
    non-empty code nor a non-empty dictionary of details is given; otherwise
    it carries the non-empty ones and nothing else. *)
Theorem error_response_error_entry (msg : string) (sc : Z)
    (c : option string) (d : option (gmap string string)) :
  let keep_code := match c with Some x => x ≠ "" | None => False end in
  let keep_details := match d with Some x => x ≠ ∅ | None => False end in
  (error (error_response msg sc c d) = None ↔ ¬ keep_code ∧ ¬ keep_details)
  ∧ (∀ e, error (error_response msg sc c d) = Some e →
       (code e = None ↔ ¬ keep_code) ∧ (code e = None ∨ code e = c)
       ∧ (details e = None ↔ ¬ keep_details) ∧ (details e = None ∨ details e = d))
  ∧ statusCode (error_response msg sc c d) = status_code (error_response msg sc c d)
  ∧ success (error_response msg sc c d) = false.
Proof.
  unfold error_response. cbn [error statusCode status_code success].
  destruct c as [x|], d as [y|]; repeat case_bool_decide; cbn;
    (split_and!; [| |done..]);
    try (intros e [= <-]; cbn); intuition (auto; congruence).
Qed.

Lemma field_error_None_iff (sch : Schema) k v :
  field_error sch k v = None ↔
  match fields sch !! k with
  | Some f => SchemaField_validate f k v = None
  | None => strict sch = false
  end.
Proof.
  unfold field_error. destruct (fields sch !! k) as [f|].
  - destruct (SchemaField_validate f k v) as [e|] eqn:He; [|done].
    destruct (SchemaField_validate_details _ _ _ _ He) as [d ->].
    by rewrite lookup_singleton_eq.
  - by destruct (strict sch).
Qed.

Lemma Schema_validate_None_iff (sch : Schema) (data : gmap string value) :
  Schema_validate sch (JObject data) = None ↔
    (∀ k f, fields sch !! k = Some f → required f = true → is_Some (data !! k))
    ∧ (strict sch = true →
         ∀ k, is_Some (data !! k) → is_Some (fields sch !! k))
    ∧ (∀ k v f, data !! k = Some v → fields sch !! k = Some f →
         SchemaField_validate f k v = None).
Proof.
  unfold Schema_validate.
  assert (Schema_errors sch data = ∅ ↔ ∀ k, Schema_errors sch data !! k = None)
    as Hempty by apply map_empty.
  case_bool_decide as Herr.
  - split; [intros _|done].
    pose proof (proj1 Hempty Herr) as Hk. split_and!.
    + intros k f Hf Hreq. specialize (Hk k).
      rewrite Schema_errors_lookup, Hf, Hreq in Hk.
      by destruct (data !! k).
    + intros Hstrict k [v Hv]. specialize (Hk k).
      rewrite Schema_errors_lookup, Hv, field_error_None_iff in Hk.
      destruct (fields sch !! k); [eauto|congruence].
    + intros k v f Hv Hf. specialize (Hk k).
      by rewrite Schema_errors_lookup, Hv, field_error_None_iff, Hf in Hk.
  - split; [done|]. intros (Hreq & Hstrict & Hval). exfalso. apply Herr.
    apply Hempty. intros k. rewrite Schema_errors_lookup.
    destruct (data !! k) as [v|] eqn:Hv.
    + apply field_error_None_iff.
      destruct (fields sch !! k) as [f|] eqn:Hf; [eauto|].
      destruct (strict sch) eqn:Hs; [|done].
      destruct (Hstrict eq_refl k) as [f Hf']; [eauto|congruence].
    + destruct (fields sch !! k) as [f|] eqn:Hf; [|done].
      destruct (required f) eqn:Hr; [|done].
      destruct (Hreq k f Hf Hr) as [? ?]. congruence.
Qed.

(** [Schema.validate] returns the data exactly when every required field is
    there, no key outside the schema is there if the schema is strict, and
    every field that is there validates.  A body that is not an object is
    never returned. *)
Theorem Schema_validate_accepts_iff (sch : Schema) (data : gmap string value) :
  (Schema_validate sch (JObject data) = None ↔
     (∀ k f, fields sch !! k = Some f → required f = true → is_Some (data !! k))
     ∧ (strict sch = true →
          ∀ k, is_Some (data !! k) → is_Some (fields sch !! k))
     ∧ (∀ k v f, data !! k = Some v → fields sch !! k = Some f →
          SchemaField_validate f k v = None))
  ∧ (∀ v, Schema_validate sch (JOther v) ≠ None).
Proof. split; [apply Schema_validate_None_iff|done]. Qed.

(** When [Schema.validate] raises on an object, the message is "Validation
    failed", the details are not empty, and each entry is either "This field
    is required" under a required field that is missing or the verdict on a
    key of the data. *)
Theorem Schema_validate_error_shape
    (sch : Schema) (data : gmap string value) (e : ValidationError) :
  Schema_validate sch (JObject data) = Some e →
  ve_message e = "Validation failed"
  ∧ ve_details e ≠ ∅
  ∧ ∀ k msg, ve_details e !! k = Some msg →
      (data !! k = None ∧ msg = "This field is required"
       ∧ ∃ f, fields sch !! k = Some f ∧ required f = true)
      ∨ (∃ v, data !! k = Some v ∧ field_error sch k v = Some msg).
Proof.
  unfold Schema_validate. case_bool_decide as Herr; [done|].
  intros [= <-]. cbn [ve_message ve_details]. split_and!; [done..|].
  intros k msg. rewrite Schema_errors_lookup.
  destruct (data !! k) as [v|]; [eauto|].
  destruct (fields sch !! k) as [f|] eqn:Hf; [|done].
  destruct (required f) eqn:Hr; [|done].
  intros [= <-]. left. eauto.
Qed.

Lemma Schema_validate_error_shape_witness :
  let e := {| ve_message := "Validation failed";
              ve_details := {[ "refresh_token" := "This field is required" ]} |} in
  ve_message e = "Validation failed"
  ∧ ve_details e ≠ ∅
  ∧ ∀ k msg, ve_details e !! k = Some msg →
      ((∅ : gmap string value) !! k = None ∧ msg = "This field is required"
       ∧ ∃ f, fields refresh_token_schema !! k = Some f ∧ required f = true)
      ∨ (∃ v, (∅ : gmap string value) !! k = Some v
              ∧ field_error refresh_token_schema k v = Some msg).
Proof.
  intros e. apply (Schema_validate_error_shape refresh_token_schema ∅ e).
  vm_compute. reflexivity.
Defined.

(** An [int] field lets a boolean through its type check and then weighs it
    as 0 or 1 against the bounds: with no list of allowed values and no
    custom validator, [True] and [False] validate exactly when 1 and 0 are in
    range. *)
Theorem SchemaField_validate_bool_as_int (f : SchemaField) (k : string) (b : bool) :
  field_type f = TInt →
  allowed_values f = None →
  custom_validator f = None →
  let n := if b then 1 else 0 in
  SchemaField_validate f k (VBool b) = None ↔
  (∀ lo, min_value f = Some lo → lo ≤ n) ∧ (∀ hi, max_value f = Some hi → n ≤ hi).
Proof.
  intros Hty Hal Hcu n.
  unfold SchemaField_validate, check_type, check_length, check_range,
    check_allowed, check_pattern, check_custom.
  rewrite Hty, Hal, Hcu. cbn [isinstance as_number or_else]. fold n.
  destruct (pattern f) as [[? ?]|];
    destruct (min_value f) as [lo|], (max_value f) as [hi|]; cbn [or_else];
    repeat match goal with
           | |- context [?a <? ?b] => destruct (Z.ltb_spec a b)
           end; cbn [or_else raise_field]; split; try done;
    try (intros _; split; intros ? [= <-]; lia);
    intros [H1 H2];
    try (specialize (H1 _ eq_refl)); try (specialize (H2 _ eq_refl)); lia.
Qed.

Lemma SchemaField_validate_bool_as_int_witness :
  SchemaField_validate (SettingsHandlers.ranged_field 1 100)
    "max_failed_login_attempts" (VBool true) = None.
Proof.
  apply (SchemaField_validate_bool_as_int (SettingsHandlers.ranged_field 1 100)
           "max_failed_login_attempts" true eq_refl eq_refl eq_refl).
  split; intros ? [= <-]; lia.
Defined.

(** What the two kinds of [str] field of these schemas let through. *)
Lemma str_field_min_length_validate req k v :
  SchemaField_validate (str_field req (Some 1) None) k v = None ↔
  ∃ s, v = VStr s ∧ s ≠ "".
Proof.
  unfold SchemaField_validate, check_type, check_length, check_range,
    check_allowed, check_pattern, check_custom.
  cbn [str_field field_type min_length max_length allowed_values pattern
       custom_validator].
  destruct v as [b|z|s|]; cbn [isinstance or_else raise_field];
    try (split; [done|by intros (? & ? & ?)]).
  destruct s as [|c s]; cbn [String.length].
  - split; [done|]. by intros (? & [= <-] & ?).
  - destruct (Z.ltb_spec (Z.of_nat (S (String.length s))) 1); [lia|].
    split; [eauto|done].
Qed.

Lemma str_field_allowed_validate req roles k v :
  SchemaField_validate (str_field req None (Some (VStr <$> roles))) k v = None ↔
  ∃ r, v = VStr r ∧ r ∈ roles.
Proof.
  unfold SchemaField_validate, check_type, check_length, check_range,
    check_allowed, check_pattern, check_custom.
  cbn [str_field field_type min_length max_length allowed_values pattern
       custom_validator].
  destruct v as [b|z|s|]; cbn [isinstance or_else raise_field as_number];
    try (split; [done|by intros (? & ? & ?)]).
  rewrite SettingsClaims.py_in_roles. case_bool_decide as Hin; cbn [or_else].
  - split; [eauto|done].
  - split; [done|]. by intros (? & [= <-] & ?).
Qed.

(** POST /auth/refresh and POST /auth/logout accept a body exactly when it
    is the object with the single key [refresh_token] and a non-empty string
    under it. *)
Theorem refresh_token_schema_accepts_iff (body : gmap string value) :
  (Schema_validate refresh_token_schema (JObject body) = None ↔
     ∃ s, s ≠ "" ∧ body = {[ "refresh_token" := VStr s ]})
  ∧ logout_schema = refresh_token_schema.
Proof.
  split; [|done]. rewrite Schema_validate_None_iff.
  cbn [fields strict refresh_token_schema]. split.
  - intros (Hreq & Hstrict & Hval).
    destruct (Hreq "refresh_token" _ (lookup_singleton_eq _ _) eq_refl)
      as [v Hv].
    pose proof (Hval _ _ _ Hv (lookup_singleton_eq _ _)) as Hf.
    apply str_field_min_length_validate in Hf as (s & -> & Hs).
    exists s. split; [done|]. apply map_eq. intros k.
    destruct (decide (k = "refresh_token")) as [->|Hne].
    + by rewrite lookup_singleton_eq.
    + rewrite lookup_singleton_ne by done.
      destruct (body !! k) as [v|] eqn:Hk; [|done].
      destruct (Hstrict eq_refl k) as [f Hf]; [eauto|].
      by apply lookup_singleton_Some in Hf as [? _].
  - intros (s & Hs & ->). split_and!.
    + intros k f [<- _]%lookup_singleton_Some _.
      rewrite lookup_singleton_eq. eauto.
    + intros _ k [v [<- _]%lookup_singleton_Some].
      rewrite lookup_singleton_eq. eauto.
    + intros k v f [<- <-]%lookup_singleton_Some [_ <-]%lookup_singleton_Some.
      apply str_field_min_length_validate. eauto.
Qed.

(** PUT /users/{id}/role accepts a body exactly when [role] is one of
    [VALID_ROLES], [tenant_id] is absent or a non-empty string, and there is
    no other key. *)
Theorem update_role_schema_accepts_iff
    (VALID_ROLES : list string) (body : gmap string value) :
  Schema_validate (update_role_schema VALID_ROLES) (JObject body) = None ↔
    (∃ r, body !! "role" = Some (VStr r) ∧ r ∈ VALID_ROLES)
    ∧ (body !! "tenant_id" = None
       ∨ ∃ t, body !! "tenant_id" = Some (VStr t) ∧ t ≠ "")
    ∧ (∀ k, k ≠ "role" → k ≠ "tenant_id" → body !! k = None).
Proof.
  rewrite Schema_validate_None_iff.
  cbn [fields strict update_role_schema].
  assert (Hrole : ∀ A (x y : A),
            ({[ "role" := x; "tenant_id" := y ]} : gmap string A) !! "role"
            = Some x) by (intros; apply lookup_insert_eq).
  assert (Htenant : ∀ A (x y : A),
            ({[ "role" := x; "tenant_id" := y ]} : gmap string A) !! "tenant_id"
            = Some y).
  { intros. rewrite lookup_insert_ne by done. apply lookup_singleton_eq. }
  assert (Hother : ∀ A (x y : A) k, k ≠ "role" → k ≠ "tenant_id" →
            ({[ "role" := x; "tenant_id" := y ]} : gmap string A) !! k = None).
  { intros. rewrite lookup_insert_ne by done. by apply lookup_singleton_ne. }
  split.
  - intros (Hreq & Hstrict & Hval). split_and!.
    + destruct (Hreq "role" _ (Hrole _ _ _) eq_refl) as [v Hv].
      pose proof (Hval _ _ _ Hv (Hrole _ _ _)) as Hf.
      apply str_field_allowed_validate in Hf as (r & -> & Hr). eauto.
    + destruct (body !! "tenant_id") as [v|] eqn:Hv; [|by left].
      pose proof (Hval _ _ _ Hv (Htenant _ _ _)) as Hf.
      apply str_field_min_length_validate in Hf as (t & -> & Ht). eauto.
    + intros k Hk1 Hk2. destruct (body !! k) as [v|] eqn:Hv; [|done].
      destruct (Hstrict eq_refl k) as [f Hf]; [eauto|].
      by rewrite Hother in Hf.
  - intros ((r & Hr & Hin) & Ht & Hrest). split_and!.
    + intros k f Hf Hreq.
      destruct (decide (k = "role")) as [->|Hk1]; [eauto|].
      destruct (decide (k = "tenant_id")) as [->|Hk2].
      * rewrite Htenant in Hf. by injection Hf as <-.
      * by rewrite Hother in Hf.
    + intros _ k [v Hv].
      destruct (decide (k = "role")) as [->|Hk1]; [rewrite Hrole; eauto|].
      destruct (decide (k = "tenant_id")) as [->|Hk2]; [rewrite Htenant; eauto|].
      rewrite Hrest in Hv by done. done.
    + intros k v f Hv Hf.
      destruct (decide (k = "role")) as [->|Hk1].
      * rewrite Hrole in Hf. injection Hf as <-. rewrite Hr in Hv.
        injection Hv as <-. apply str_field_allowed_validate. eauto.
      * destruct (decide (k = "tenant_id")) as [->|Hk2].
        -- rewrite Htenant in Hf. injection Hf as <-.
           destruct Ht as [Ht|(t & Ht & Hne)]; rewrite Ht in Hv; [done|].
           injection Hv as <-. apply str_field_min_length_validate. eauto.
        -- by rewrite Hother in Hf.
Qed.

End SchemaMore.

(** ** The settings handlers *)

Module SettingsMore.
Import AppSettings SchemaValidator SettingsHandlers.
Import AppSettingsFacts SchemaFacts SettingsFacts SchemaMore Samples.

Lemma update_settings_fields_lookup (VALID_ROLES : list string) k f :
  (k, f) ∈ update_settings_fields VALID_ROLES →
  fields (update_settings_schema VALID_ROLES) !! k = Some f.
Proof.
  apply elem_of_list_to_map_1. apply (bool_decide_unpack _). by vm_compute.
Qed.

Lemma range_block_None_inv name lo hi a b k v n :
  range_block name lo hi a b k v = None → k = name → as_number v = Some n →
  lo ≤ n ≤ hi.
Proof.
  unfold range_block. intros H -> Hn. rewrite bool_decide_true, Hn in H by done.
  destruct (Z.ltb_spec n lo), (Z.ltb_spec hi n); try done; lia.
Qed.

Lemma ranged_field_validate lo hi k v n :
  isinstance v TInt = true → as_number v = Some n → lo ≤ n ≤ hi →
  SchemaField_validate (ranged_field lo hi) k v = None.
Proof.
  intros Hty Hn Hr.
  unfold SchemaField_validate, check_type, check_length, check_range,
    check_allowed, check_pattern, check_custom.
  cbn [ranged_field field_type min_value max_value allowed_values pattern
       custom_validator].
  rewrite Hty.
  destruct v as [b|z|s|]; try done; cbn [as_number] in *; injection Hn as Hn;
    rewrite Hn; cbn [or_else];
    destruct (Z.ltb_spec n lo), (Z.ltb_spec hi n); try done; lia.
Qed.

Lemma first_error_None a b : first_error a b = None → a = None ∧ b = None.
Proof. by destruct a. Qed.

(** The handler's own loop and the decorator's schema accept exactly the
    same keys and values, so the handler's "Validation failed" answer cannot
    be reached through the decorated endpoint. *)
Theorem check_setting_agrees_with_schema
    (VALID_ROLES : list string) (k : string) (v : value) :
  check_setting VALID_ROLES k v = None ↔
  field_error (update_settings_schema VALID_ROLES) k v = None.
Proof.
  split; [|apply schema_accepts_check_setting].
  unfold check_setting.
  destruct (ALLOWED_SETTINGS !! k) as [t|] eqn:Hk; [|done].
  apply elem_of_list_to_map_2 in Hk. unfold ALLOWED_SETTINGS_list in Hk.
  destruct (isinstance v t) eqn:Hty; [|done]. cbn [negb].
  intros H.
  apply first_error_None in H as [H1 H].
  apply first_error_None in H as [H2 H].
  apply first_error_None in H as [H3 H4].
  apply field_error_None_iff.
  repeat (apply elem_of_cons in Hk as [Hk|Hk]); [..|by apply elem_of_nil in Hk];
    injection Hk as -> ->.
  1-4: rewrite (update_settings_fields_lookup VALID_ROLES _ (plain_field TBool))
         by (unfold update_settings_fields; set_solver);
       by destruct v.
  - rewrite (update_settings_fields_lookup VALID_ROLES _ (role_field VALID_ROLES))
      by (unfold update_settings_fields; set_solver).
    unfold role_block in H4. rewrite bool_decide_true in H4 by done.
    destruct v as [b|z|s|]; try done.
    unfold SchemaField_validate, check_type, check_length, check_range,
      check_allowed, check_pattern, check_custom.
    cbn [role_field field_type min_length max_length allowed_values pattern
         custom_validator isinstance or_else as_number].
    by destruct (py_in (VStr s) (VStr <$> VALID_ROLES)).
  - rewrite (update_settings_fields_lookup VALID_ROLES _ (ranged_field 4 128))
      by (unfold update_settings_fields; set_solver).
    destruct (as_number v) as [n|] eqn:Hn; [|by destruct v].
    apply (ranged_field_validate _ _ _ _ n); [done..|].
    by apply (range_block_None_inv _ _ _ _ _ _ _ _ H1).
  - rewrite (update_settings_fields_lookup VALID_ROLES _ (ranged_field 1 100))
      by (unfold update_settings_fields; set_solver).
    destruct (as_number v) as [n|] eqn:Hn; [|by destruct v].
    apply (ranged_field_validate _ _ _ _ n); [done..|].
    by apply (range_block_None_inv _ _ _ _ _ _ _ _ H2).
  - rewrite (update_settings_fields_lookup VALID_ROLES _ (ranged_field 0 10080))
      by (unfold update_settings_fields; set_solver).
    destruct (as_number v) as [n|] eqn:Hn; [|by destruct v].
    apply (ranged_field_validate _ _ _ _ n); [done..|].
    by apply (range_block_None_inv _ _ _ _ _ _ _ _ H3).
Qed.

(** PUT /settings on an event.  An event that carries [body: None] makes
    the decorator raise [TypeError]: there is no answer and nothing is
    written.  Every other event is answered 200, 400, 422 or 500.  A 400 or
    422 answer (a string that is not JSON, a schema error, an empty object)
    leaves the table and the cache exactly as they were, since no call to
    the store precedes it; and only a body that is a non-empty JSON object
    accepted by the schema reaches the store, so only such a body is
    answered 200 or 500. *)
Theorem update_settings_rejections_leave_state
    (VALID_ROLES : list string) (body : event_body) (s : state) :
  let sch := update_settings_schema VALID_ROLES in
  let call := update_settings_event VALID_ROLES body s in
  (body = BodyNone → call = RaisesTypeError s)
  ∧ (∀ s1, call = RaisesTypeError s1 → body = BodyNone)
  ∧ (∀ s1 resp, call = Answers s1 resp →
       (statusCode resp = 200 ∨ statusCode resp = 400
        ∨ statusCode resp = 422 ∨ statusCode resp = 500)
       ∧ (statusCode resp = 400 ∨ statusCode resp = 422 → s1 = s)
       ∧ (statusCode resp = 200 ∨ statusCode resp = 500 →
            ∃ data, body = BodyText (Some (JObject data))
                    ∧ data ≠ ∅
                    ∧ Schema_validate sch (JObject data) = None)).
Proof.
  intros sch call.
  assert (Hparsed : ∀ parsed s1 resp,
    update_settings VALID_ROLES parsed s = (s1, resp) →
    (statusCode resp = 200 ∨ statusCode resp = 400
     ∨ statusCode resp = 422 ∨ statusCode resp = 500)
    ∧ (statusCode resp = 400 ∨ statusCode resp = 422 → s1 = s)
    ∧ (statusCode resp = 200 ∨ statusCode resp = 500 →
         ∃ data, parsed = Some (JObject data) ∧ data ≠ ∅
                 ∧ Schema_validate sch (JObject data) = None)).
  { intros parsed s1 resp. unfold update_settings, validate_request_body.
    destruct parsed as [b|];
      [|intros [= <- <-]; cbn; split_and!; [auto|done|intros [|]; done]].
    fold sch.
    destruct (Schema_validate sch b) as [e|] eqn:Hv;
      [intros [= <- <-]; cbn; split_and!; [auto|done|intros [|]; done]|].
    unfold update_settings_body. destruct b as [m|v]; [|by destruct v].
    case_bool_decide as Hm;
      [intros [= <- <-]; cbn; split_and!; [auto|done|intros [|]; done]|].
    destruct (foldl _ _ _) as [errs validated].
    case_bool_decide; cbn [negb];
      [|intros [= <- <-]; cbn; split_and!; [auto|done|intros [|]; done]].
    destruct (AppSettings.update_settings validated s) as [s2|s2].
    - destruct (foldl _ _ _) as [s3 updated]. intros [= <- <-]. cbn.
      split_and!; [auto|intros [|]; done|eauto].
    - intros [= <- <-]. cbn. split_and!; [auto|intros [|]; done|eauto]. }
  unfold call, update_settings_event, wrapper. split_and!.
  - by intros ->.
  - intros s1. by destruct body.
  - intros s1 resp.
    destruct body as [| |parsed]; [|intros Hc; discriminate Hc|].
    + change (validate_request_body _ _ ?b s)
        with (update_settings VALID_ROLES b s).
      destruct (update_settings VALID_ROLES (Some (JObject ∅)) s)
        as [s2 r2] eqn:E.
      cbn [fst snd]. intros Hc. injection Hc as <- <-.
      destruct (Hparsed _ _ _ E) as (Hst & Hsame & Hstore).
      split_and!; [exact Hst|exact Hsame|].
      intros Hs. destruct (Hstore Hs) as (data & Hd & Hne & _).
      injection Hd as <-. by destruct Hne.
    + change (validate_request_body _ _ ?b s)
        with (update_settings VALID_ROLES b s).
      destruct (update_settings VALID_ROLES parsed s) as [s2 r2] eqn:E.
      cbn [fst snd]. intros Hc. injection Hc as <- <-.
      destruct (Hparsed _ _ _ E) as (Hst & Hsame & Hstore).
      split_and!; [exact Hst|exact Hsame|].
      intros Hs. destruct (Hstore Hs) as (data & -> & Hne & Hv).
      exists data. by split_and!.
Qed.

Lemma update_settings_rejections_leave_state_witness :
  let r := update_settings sample_roles (Some (JObject mixed_body)) seeded_state in
  (statusCode r.2 = 200 ∨ statusCode r.2 = 400
   ∨ statusCode r.2 = 422 ∨ statusCode r.2 = 500)
  ∧ (statusCode r.2 = 400 ∨ statusCode r.2 = 422 → r.1 = seeded_state)
  ∧ (statusCode r.2 = 200 ∨ statusCode r.2 = 500 →
       ∃ data, BodyText (Some (JObject mixed_body)) = BodyText (Some (JObject data))
               ∧ data ≠ ∅
               ∧ Schema_validate (update_settings_schema sample_roles)
                   (JObject data) = None).
Proof.
  intros r.
  apply (update_settings_rejections_leave_state sample_roles
           (BodyText (Some (JObject mixed_body))) seeded_state).
  reflexivity.
Defined.

End SettingsMore.

(** ** The login handler *)

Module LoginMore.
Import AppSettings AppSettingsFacts Login LoginFacts Accounts Samples.

Section with_capabilities.

Variable caps : capabilities.

Lemma lockout_check_inl_status now uid u dur (w0 w1 : world) resp :
  lockout_check now uid u dur w0 = inl (w1, resp) →
  w1 = w0 ∧ (statusCode resp = 403 ∨ statusCode resp = 500).
Proof.
  unfold lockout_check. intros H.
  destruct (User.is_locked u); [|done].
  destruct (as_number dur) as [d|]; [|injection H as <- <-; auto].
  destruct (UserDB.should_auto_unlock now u d); [done|].
  destruct (py_eq dur (VInt 0)); injection H as <- <-; auto.
Qed.

(** What the wrong-password branch can and cannot do. *)
Lemma wrong_password_effects now ip email uid mx dur (w1 : world) :
  let r := wrong_password now ip email uid mx dur w1 in
  statusCode r.2 ≠ 200
  ∧ refresh_tokens r.1 = refresh_tokens w1
  ∧ settings r.1 = settings w1
  ∧ (∀ j, j ≠ uid → users r.1 !! j = users w1 !! j).
Proof.
  unfold wrong_password, UserDB.increment_failed_attempts, UserDB.lock_account.
  destruct (as_number mx) as [m|]; [|cbn; split_and!; try done].
  - destruct (m <=? _); [destruct (py_eq dur (VInt 0))|]; cbn;
      (split_and!; try done);
      intros j Hj; by rewrite ?lookup_alter_ne.
  - intros j Hj. by rewrite lookup_alter_ne.
Qed.

(** The five ways through [login]. *)
Lemma login_cases now ip email pw (w : world) :
  let r := login caps now ip email pw w in
  (UserDB.get_user_by_email email (users w) = None
   ∧ r = (record_attempt ip email false w,
          error_response "Invalid email or password" 401 None None))
  ∨ ∃ uid u,
      UserDB.get_user_by_email email (users w) = Some (uid, u)
      ∧ ((∃ resp,
            lockout_check now uid u (lockout_duration_setting w) (settings_read w)
            = inl (settings_read w, resp)
            ∧ (statusCode resp = 403 ∨ statusCode resp = 500)
            ∧ r = (settings_read w, resp))
         ∨ ∃ w1 u1,
             lockout_check now uid u (lockout_duration_setting w) (settings_read w)
             = inr (w1, u1)
             ∧ ((truthy (verification_setting w) && negb (User.is_verified u1) = true
                 ∧ r = (w1, error_response
                              "Account is not verified. Please verify your email and phone."
                              403 None None))
                ∨ (truthy (verification_setting w) && negb (User.is_verified u1) = false
                   ∧ verify_password caps pw (User.password u1) = false
                   ∧ r = wrong_password now ip email uid (max_failed_setting w)
                           (lockout_duration_setting w) w1)
                ∨ (truthy (verification_setting w) && negb (User.is_verified u1) = false
                   ∧ verify_password caps pw (User.password u1) = true
                   ∧ r = successful_login caps now ip email uid u1 w1))).
Proof.
  cbn zeta.
  destruct (UserDB.get_user_by_email email (users w)) as [[uid u]|] eqn:Hu.
  - right. exists uid, u. split; [done|].
    rewrite (login_known caps now ip email pw w uid u Hu).
    destruct (lockout_check now uid u _ _) as [[w1 resp]|[w1 u1]] eqn:Hc.
    + left. destruct (lockout_check_inl_status _ _ _ _ _ _ _ Hc) as [-> Hs].
      eauto.
    + right. exists w1, u1. split; [done|].
      destruct (truthy _ && negb _); [auto|].
      destruct (verify_password caps pw (User.password u1)); cbn [negb]; auto.
  - left. split; [done|]. unfold login. by rewrite Hu.
Qed.

(** [login] answers 200 only to a request for a known account whose
    password [verify_password] accepts, that is verified unless verification
    is switched off, and that is unlocked or has just passed the auto-unlock
    test. *)
Theorem login_200_requires_password (now : Z) (ip email pw : string) (w : world) :
  statusCode (login caps now ip email pw w).2 = 200 →
  ∃ uid u,
    UserDB.get_user_by_email email (users w) = Some (uid, u)
    ∧ verify_password caps pw (User.password u) = true
    ∧ truthy (verification_setting w) && negb (User.is_verified u) = false
    ∧ (User.is_locked u = false
       ∨ ∃ d, as_number (lockout_duration_setting w) = Some d
              ∧ UserDB.should_auto_unlock now u d = true).
Proof.
  intros H200.
  destruct (login_cases now ip email pw w)
    as [[_ Hr]|(uid & u & Hu & [(resp & _ & Hs & Hr)|(w1 & u1 & Hc & Hrest)])].
  - by rewrite Hr in H200.
  - rewrite Hr in H200. cbn in H200. lia.
  - destruct (get_user_by_email_Some _ _ _ _ Hu) as [Hlook _].
    destruct (lockout_check_inr_user _ _ _ _ _ _ _
                (Hlook : users (settings_read w) !! uid = Some u) Hc)
      as (_ & _ & Hv & Hp).
    destruct Hrest as [[_ Hr]|[(_ & _ & Hr)|(Hg & Hpw & _)]].
    + by rewrite Hr in H200.
    + rewrite Hr in H200.
      by destruct (wrong_password_effects now ip email uid (max_failed_setting w)
                     (lockout_duration_setting w) w1) as [? _].
    + exists uid, u. rewrite <- Hv, <- Hp. split_and!; try done.
      apply lockout_check_inr in Hc as [(? & _)|(_ & ? & _)]; auto.
Qed.

End with_capabilities.

Lemma login_200_requires_password_witness :
  ∃ uid u,
    UserDB.get_user_by_email "alice@example.com" (users sample_world)
    = Some (uid, u)
    ∧ verify_password sample_caps "correct horse" (User.password u) = true
    ∧ truthy (verification_setting sample_world) && negb (User.is_verified u)
      = false
    ∧ (User.is_locked u = false
       ∨ ∃ d, as_number (lockout_duration_setting sample_world) = Some d
              ∧ UserDB.should_auto_unlock 2000 u d = true).
Proof.
  apply (login_200_requires_password sample_caps 2000 "198.51.100.7"
           "alice@example.com" "correct horse" sample_world).
  reflexivity.
Defined.

Section with_capabilities.

Variable caps : capabilities.

Lemma lockout_check_inr_world now uid u dur (w0 w1 : world) u1 :
  lockout_check now uid u dur w0 = inr (w1, u1) →
  refresh_tokens w1 = refresh_tokens w0
  ∧ settings w1 = settings w0
  ∧ (∀ j, j ≠ uid → users w1 !! j = users w0 !! j)
  ∧ User.email u1 = User.email u
  ∧ User.role u1 = User.role u
  ∧ User.is_locked u1 = false.
Proof.
  intros H.
  apply lockout_check_inr in H as [(? & -> & ->)|(_ & _ & -> & ->)]; [done|].
  cbn. split_and!; try done.
  intros j Hj. unfold UserDB.unlock_account. by rewrite lookup_alter_ne.
Qed.

(** [login] changes no account but the one the address belongs to, and it
    never writes to the settings table. *)
Theorem login_touches_only_the_account (now : Z) (ip email pw : string) (w : world) :
  let r := login caps now ip email pw w in
  (UserDB.get_user_by_email email (users w) = None → users r.1 = users w)
  ∧ (∀ uid u, UserDB.get_user_by_email email (users w) = Some (uid, u) →
       ∀ j, j ≠ uid → users r.1 !! j = users w !! j)
  ∧ settings_table (settings r.1) = settings_table (settings w)
  ∧ reachable (settings r.1) = reachable (settings w).
Proof.
  cbn zeta.
  assert (Hread : settings_table (settings (settings_read w))
                    = settings_table (settings w)
                  ∧ reachable (settings (settings_read w))
                    = reachable (settings w)).
  { unfold settings_read. cbn [settings with_settings].
    apply get_setting_table. }
  destruct (login_cases caps now ip email pw w)
    as [[Hn Hr]|(uid & u & Hu & [(resp & _ & _ & Hr)|(w1 & u1 & Hc & Hrest)])].
  - rewrite Hr. cbn. split_and!; try done; intros; congruence.
  - rewrite Hr. cbn [fst]. split_and!; try apply Hread; try done; congruence.
  - destruct (lockout_check_inr_world _ _ _ _ _ _ _ Hc) as (_ & Hs & Hj1 & _).
    assert (Hothers : ∀ r0 : world * response,
              settings r0.1 = settings w1 →
              (∀ j, j ≠ uid → users r0.1 !! j = users w1 !! j) →
              (UserDB.get_user_by_email email (users w) = None →
               users r0.1 = users w)
              ∧ (∀ uid0 u0,
                   UserDB.get_user_by_email email (users w) = Some (uid0, u0) →
                   ∀ j, j ≠ uid0 → users r0.1 !! j = users w !! j)
              ∧ settings_table (settings r0.1) = settings_table (settings w)
              ∧ reachable (settings r0.1) = reachable (settings w)).
    { intros r0 Hs0 Hj0. rewrite Hs0, Hs. split_and!; try apply Hread;
        [congruence|].
      intros uid0 u0 Hu0 j Hj. rewrite Hu in Hu0. injection Hu0 as <- <-.
      by rewrite Hj0, Hj1. }
    destruct Hrest as [[_ Hr]|[(_ & _ & Hr)|(_ & _ & Hr)]]; rewrite Hr.
    + by apply Hothers.
    + destruct (wrong_password_effects now ip email uid (max_failed_setting w)
                  (lockout_duration_setting w) w1) as (_ & _ & ? & ?).
      by apply Hothers.
    + apply Hothers; [done|].
      intros j Hj. unfold successful_login, UserDB.reset_failed_attempts.
      cbn. by rewrite lookup_alter_ne.
Qed.

(** A refresh token is stored only by a request answered 200; such a request
    stores exactly one, for the account that logged in, expiring
    [REFRESH_TOKEN_EXPIRY] after the request, hands the same token and a
    fresh access token to the caller, and leaves the account unlocked with
    counter 0. *)
Theorem login_refresh_token_only_on_200 (now : Z) (ip email pw : string) (w : world) :
  let r := login caps now ip email pw w in
  (statusCode r.2 ≠ 200 → refresh_tokens r.1 = refresh_tokens w)
  ∧ (statusCode r.2 = 200 →
     ∃ uid u,
       UserDB.get_user_by_email email (users w) = Some (uid, u)
       ∧ refresh_tokens r.1 =
           (refresh_tokens w ++
            [ {| token := generate_refresh_token caps uid;
                 token_user_id := uid;
                 created_at := now;
                 expires_at := now + REFRESH_TOKEN_EXPIRY caps |} ])%list
       ∧ data r.2 =
           DataLogin uid (User.email u) (User.role u)
             (generate_access_token caps uid (User.email u) (User.role u))
             (generate_refresh_token caps uid) (ACCESS_TOKEN_EXPIRY caps)
       ∧ ∃ u', users r.1 !! uid = Some u'
               ∧ User.failed_login_attempts u' = 0
               ∧ User.is_locked u' = false).
Proof.
  cbn zeta.
  destruct (login_cases caps now ip email pw w)
    as [[Hn Hr]|(uid & u & Hu & [(resp & _ & Hs & Hr)|(w1 & u1 & Hc & Hrest)])].
  - rewrite Hr. cbn. split; [done|lia].
  - rewrite Hr. cbn [fst snd]. split; [done|]. lia.
  - destruct (get_user_by_email_Some _ _ _ _ Hu) as [Hlook _].
    destruct (lockout_check_inr_user _ _ _ _ _ _ _
                (Hlook : users (settings_read w) !! uid = Some u) Hc)
      as (Hlook1 & _).
    destruct (lockout_check_inr_world _ _ _ _ _ _ _ Hc)
      as (Ht & _ & _ & He & Hro & Hl).
    destruct Hrest as [[_ Hr]|[(_ & _ & Hr)|(_ & _ & Hr)]]; rewrite Hr.
    + cbn [fst snd]. split; [by rewrite Ht|]. cbn. lia.
    + destruct (wrong_password_effects now ip email uid (max_failed_setting w)
                  (lockout_duration_setting w) w1) as (Hs & Hrt & _).
      split; [intros _; by rewrite Hrt, Ht|done].
    + unfold successful_login, login_success_response,
        UserDB.reset_failed_attempts.
      cbn. split; [done|]. intros _. exists uid, u.
      rewrite Ht, He, Hro. split_and!; try done.
      rewrite lookup_alter_eq, Hlook1. cbn. eauto.
Qed.

(** A threshold read as a string (the only kind of value [get_setting]
    can answer for it that is not a number): the wrong password has already
    been counted when the comparison raises, so the answer is 500 "Login
    failed", the stored [failed_login_attempts] is one higher, the account
    is still unlocked and no attempt is recorded. *)
Theorem login_mistyped_threshold
    (now : Z) (ip email pw : string) (w : world) (uid : string) (u : User.t)
    (t : string) :
  UserDB.get_user_by_email email (users w) = Some (uid, u) →
  User.is_locked u = false →
  truthy (verification_setting w) && negb (User.is_verified u) = false →
  verify_password caps pw (User.password u) = false →
  max_failed_setting w = VStr t →
  let r := login caps now ip email pw w in
  r.2 = error_response "Login failed" 500 None None
  ∧ users r.1 !! uid =
      Some (User.set_failed (User.failed_login_attempts u + 1) u)
  ∧ User.failed_login_attempts <$> users r.1 !! uid =
      Some (User.failed_login_attempts u + 1)
  ∧ User.is_locked <$> users r.1 !! uid = Some false
  ∧ login_attempts r.1 = login_attempts w.
Proof.
  intros Hu Hl Hg Hpw Hm. cbn zeta.
  destruct (get_user_by_email_Some _ _ _ _ Hu) as [Hlook _].
  rewrite (login_known caps now ip email pw w uid u Hu).
  rewrite lockout_check_unlocked by done. rewrite Hg, Hpw. cbn [negb].
  unfold wrong_password, UserDB.increment_failed_attempts. rewrite Hm.
  cbn [as_number].
  cbn [fst snd users login_attempts with_users settings_read with_settings].
  rewrite lookup_alter_eq, Hlook.
  cbn [fmap option_fmap option_map default User.is_locked
       User.failed_login_attempts User.set_failed].
  by rewrite Hl.
Qed.

End with_capabilities.

Lemma login_mistyped_threshold_witness :
  let r := login sample_caps 2000 "198.51.100.7" "alice@example.com" "guess"
             mistyped_world in
  r.2 = error_response "Login failed" 500 None None
  ∧ users r.1 !! "u-alice" = Some (User.set_failed (1 + 1) alice)
  ∧ User.failed_login_attempts <$> users r.1 !! "u-alice" = Some (1 + 1)
  ∧ User.is_locked <$> users r.1 !! "u-alice" = Some false
  ∧ login_attempts r.1 = login_attempts mistyped_world.
Proof.
  apply (login_mistyped_threshold sample_caps 2000 "198.51.100.7"
           "alice@example.com" "guess" mistyped_world "u-alice" alice "five");
    reflexivity.
Defined.

(** In a store without shared addresses, looking an account up by its
    address finds that account. *)
Lemma get_user_by_email_unique (us : gmap string User.t) uid u :
  unique_emails us → us !! uid = Some u →
  UserDB.get_user_by_email (User.email u) us = Some (uid, u).
Proof.
  intros Huniq Hu. unfold UserDB.get_user_by_email.
  assert (Hin : (uid, u) ∈
            filter (λ ku : string * User.t, User.email ku.2 = User.email u)
                   (map_to_list us)).
  { apply list_elem_of_filter. split; [done|]. by apply elem_of_map_to_list. }
  destruct (filter _ (map_to_list us)) as [|[i ui] l] eqn:Hf.
  - by apply elem_of_nil in Hin.
  - cbn. assert (Hhd : (i, ui) ∈ filter
                 (λ ku : string * User.t, User.email ku.2 = User.email u)
                 (map_to_list us)) by (rewrite Hf; left).
    apply list_elem_of_filter in Hhd as [He Hi]. cbn in He.
    apply elem_of_map_to_list in Hi.
    pose proof (Huniq i uid ui u Hi Hu He) as ->.
    rewrite Hu in Hi. by injection Hi as ->.
Qed.

Lemma unique_emails_alter (f : User.t → User.t) k (us : gmap string User.t) :
  (∀ x, User.email (f x) = User.email x) →
  unique_emails us → unique_emails (alter f k us).
Proof.
  intros Hf Huniq.
  assert (Hback : ∀ i x, alter f k us !! i = Some x →
            ∃ x0, us !! i = Some x0 ∧ User.email x = User.email x0).
  { intros i x. destruct (decide (i = k)) as [->|Hne].
    - rewrite lookup_alter_eq. intros (x0 & ? & ->)%fmap_Some. eauto.
    - rewrite lookup_alter_ne by done. eauto. }
  intros i j ui uj Hi Hj He.
  apply Hback in Hi as (ui0 & Hi & Hei). apply Hback in Hj as (uj0 & Hj & Hej).
  apply (Huniq i j ui0 uj0 Hi Hj). congruence.
Qed.

Lemma sample_users_unique : unique_emails sample_users.
Proof.
  assert (Hnd : NoDup ((λ ku : string * User.t, User.email ku.2)
                         <$> map_to_list sample_users)).
  { apply (bool_decide_unpack _). by vm_compute. }
  intros i j ui uj Hi Hj He.
  apply elem_of_map_to_list in Hi, Hj.
  apply list_elem_of_lookup in Hi as [a Ha], Hj as [b Hb].
  assert (a = b) as ->.
  { apply (NoDup_lookup _ a b (User.email ui) Hnd);
      rewrite list_lookup_fmap; [by rewrite Ha|by rewrite Hb, He]. }
  rewrite Ha in Hb. by injection Hb.
Qed.

Section with_capabilities.

Variable caps : capabilities.

Lemma max_failed_setting_read (w : world) :
  max_failed_setting (settings_read w) = max_failed_setting w.
Proof.
  unfold max_failed_setting, settings_read. cbn [settings with_settings].
  apply get_setting_stable.
Qed.

(** One wrong password under the threshold, with the world it leaves. *)
Lemma login_wrong_password_below now ip email pw (w : world) uid u m :
  UserDB.get_user_by_email email (users w) = Some (uid, u) →
  User.is_locked u = false →
  User.is_verified u = true →
  verify_password caps pw (User.password u) = false →
  as_number (max_failed_setting w) = Some m →
  User.failed_login_attempts u + 1 < m →
  login caps now ip email pw w =
  (record_attempt ip email false
     (with_users (alter (User.set_failed (User.failed_login_attempts u + 1))
                        uid (users w)) (settings_read w)),
   error_response
     ("Invalid email or password. "
      +:+ pretty (m - (User.failed_login_attempts u + 1))
      +:+ " attempts remaining.") 401 None None).
Proof.
  intros Hu Hl Hv Hpw Hm Hlt.
  destruct (get_user_by_email_Some _ _ _ _ Hu) as [Hlook _].
  rewrite (login_known caps now ip email pw w uid u Hu).
  rewrite lockout_check_unlocked by done.
  rewrite Hv, andb_false_r, Hpw. cbn [negb].
  by rewrite (wrong_password_below now ip email uid _ _ m (settings_read w) u).
Qed.

(** A run of wrong passwords that stays under the threshold, in a store
    without shared addresses: the answers count the remaining attempts down
    one by one, the stored counter has grown by the length of the run, and
    each request has left one failed attempt record. *)
Theorem repeated_wrong_passwords_count_down
    (reqs : list request) (email : string) (w : world)
    (uid : string) (u : User.t) (m : Z) :
  unique_emails (users w) →
  UserDB.get_user_by_email email (users w) = Some (uid, u) →
  User.is_locked u = false →
  User.is_verified u = true →
  as_number (max_failed_setting w) = Some m →
  Forall (λ q, req_email q = email
               ∧ verify_password caps (req_password q) (User.password u) = false)
         reqs →
  User.failed_login_attempts u + Z.of_nat (List.length reqs) < m →
  let r := logins caps reqs w in
  r.2 = imap (λ i _,
                error_response
                  ("Invalid email or password. "
                   +:+ pretty (m - (User.failed_login_attempts u
                                    + Z.of_nat i + 1))
                   +:+ " attempts remaining.") 401 None None) reqs
  ∧ users r.1 !! uid =
      Some (User.set_failed
              (User.failed_login_attempts u + Z.of_nat (List.length reqs)) u)
  ∧ login_attempts r.1 =
      (login_attempts w ++
       ((λ q, {| attempt_ip := req_ip q; attempt_email := email;
                 attempt_success := false |}) <$> reqs))%list.
Proof.
  intros Huniq Hu Hl Hv Hm Hreqs. cbn zeta.
  remember (User.password u) as stored eqn:Hstored.
  revert w u Huniq Hu Hl Hv Hm Hstored.
  induction Hreqs as [|q reqs [Hq Hpw] _ IH];
    intros w u Huniq Hu Hl Hv Hm Hstored Hlt.
  - destruct (get_user_by_email_Some _ _ _ _ Hu) as [Hlook _].
    cbn. rewrite Hlook, Z.add_0_r, app_nil_r. split_and!; try done.
    by destruct u.
  - destruct (get_user_by_email_Some _ _ _ _ Hu) as [Hlook Hemail].
    cbn [List.length] in Hlt. cbn [logins]. rewrite Hq. rewrite Hstored in Hpw.
    rewrite (login_wrong_password_below _ _ _ _ w uid u m) by (done || lia).
    set (u' := User.set_failed (User.failed_login_attempts u + 1) u).
    set (w' := record_attempt _ _ _ _).
    assert (Hlook' : users w' !! uid = Some u').
    { unfold w'. cbn [users record_attempt with_users].
      by rewrite lookup_alter_eq, Hlook. }
    assert (Huniq' : unique_emails (users w')).
    { unfold w'. cbn [users record_attempt with_users].
      by apply unique_emails_alter. }
    assert (Hu' : UserDB.get_user_by_email email (users w') = Some (uid, u')).
    { rewrite <- Hemail.
      by apply (get_user_by_email_unique (users w') uid u'). }
    assert (Hm' : as_number (max_failed_setting w') = Some m).
    { unfold w', max_failed_setting.
      cbn [settings record_attempt with_users].
      fold (max_failed_setting (settings_read w)).
      by rewrite max_failed_setting_read. }
    specialize (IH w' u' Huniq' Hu' Hl Hv Hm' Hstored).
    destruct (logins caps reqs w') as [w2 resps].
    cbn [fst snd] in *.
    destruct IH as (-> & -> & ->); [unfold u'; cbn; lia|].
    split_and!.
    + cbn [imap]. f_equal.
      * by rewrite Z.add_0_r.
      * apply imap_ext. intros i x _. unfold u', compose.
        cbn [User.failed_login_attempts User.set_failed].
        by replace (User.failed_login_attempts u + Z.of_nat (S i) + 1)
          with (User.failed_login_attempts u + 1 + Z.of_nat i + 1) by lia.
    + unfold u'. cbn [User.failed_login_attempts User.set_failed List.length].
      replace (User.failed_login_attempts u + 1 + Z.of_nat (List.length reqs))
        with (User.failed_login_attempts u + Z.of_nat (S (List.length reqs)))
        by lia.
      done.
    + unfold w'. cbn [login_attempts record_attempt with_users settings_read
                      with_settings fmap list_fmap].
      by rewrite <- app_assoc.
Qed.

End with_capabilities.

Section with_capabilities.

Variable caps : capabilities.

(** The wrong password that reaches the threshold and, right after it, the
    correct password, in a store without shared addresses: the first request
    locks the account (403); the second is turned away (403, account still
    locked) unless the configured duration is positive and has elapsed since
    the lock, in which case it succeeds and leaves the account unlocked with
    counter 0. *)
Theorem lock_then_correct_password
    (t0 t1 : Z) (ip email bad good : string) (w : world)
    (uid : string) (u : User.t) (m d : Z) :
  unique_emails (users w) →
  UserDB.get_user_by_email email (users w) = Some (uid, u) →
  User.is_locked u = false →
  User.is_verified u = true →
  as_number (max_failed_setting w) = Some m →
  as_number (lockout_duration_setting w) = Some d →
  m ≤ User.failed_login_attempts u + 1 →
  verify_password caps bad (User.password u) = false →
  verify_password caps good (User.password u) = true →
  let locked :=
    User.set_lock true (Some t0)
      (User.set_failed (User.failed_login_attempts u + 1) u) in
  let r :=
    logins caps
      [ {| req_now := t0; req_ip := ip; req_email := email; req_password := bad |};
        {| req_now := t1; req_ip := ip; req_email := email; req_password := good |} ]
      w in
  ∃ resp1 resp2,
    r.2 = [resp1; resp2]
    ∧ statusCode resp1 = 403
    ∧ (0 < d ∧ d * 60 ≤ t1 - t0 →
       statusCode resp2 = 200
       ∧ users r.1 !! uid =
           Some (User.set_failed 0 (User.set_lock false (Some t0) locked)))
    ∧ (¬ (0 < d ∧ d * 60 ≤ t1 - t0) →
       statusCode resp2 = 403
       ∧ users r.1 !! uid = Some locked).
Proof.
  intros Huniq Hu Hl Hv Hm Hd Hle Hbad Hgood locked. cbn zeta.
  destruct (get_user_by_email_Some _ _ _ _ Hu) as [Hlook Hemail].
  cbn [logins req_now req_ip req_email req_password].
  rewrite (login_known caps t0 ip email bad w uid u Hu).
  rewrite lockout_check_unlocked by done.
  rewrite Hv, andb_false_r, Hbad. cbn [negb].
  destruct (wrong_password_reached t0 ip email uid (max_failed_setting w)
              (lockout_duration_setting w) m (settings_read w) u)
    as [msg ->]; [done..|].
  set (w1 := with_users _ (settings_read w)).
  assert (Hlook1 : users w1 !! uid = Some locked).
  { unfold w1, UserDB.lock_account. cbn [users with_users].
    rewrite !lookup_alter_eq.
    cbn [settings_read users with_settings]. by rewrite Hlook. }
  assert (Huniq1 : unique_emails (users w1)).
  { unfold w1, UserDB.lock_account. cbn [users with_users].
    by do 2 (apply unique_emails_alter; [done|]). }
  assert (Hu1 : UserDB.get_user_by_email email (users w1) = Some (uid, locked)).
  { rewrite <- Hemail.
    by apply (get_user_by_email_unique (users w1) uid locked). }
  assert (Hd1 : lockout_duration_setting w1 = lockout_duration_setting w).
  { unfold w1. apply (lockout_duration_setting_read w). }
  rewrite (login_known caps t1 ip email good w1 uid locked Hu1), Hd1.
  destruct (decide (0 < d ∧ d * 60 ≤ t1 - t0)) as [[Hpos He]|Hnot].
  - rewrite (lockout_check_elapsed t1 uid locked _ d t0) by done.
    cbn [User.is_verified User.password User.set_failed User.set_lock locked].
    rewrite Hv, andb_false_r, Hgood. cbn [negb].
    unfold successful_login, login_success_response.
    cbn [fst snd]. do 2 eexists. split; [reflexivity|].
    cbn [statusCode error_response success_response].
    split_and!; [done| |tauto].
    intros _. split; [done|].
    cbn [users with_users record_attempt create_token settings_read with_settings].
    unfold UserDB.reset_failed_attempts, UserDB.unlock_account.
    rewrite !lookup_alter_eq, Hlook1. done.
  - assert (Hs : UserDB.should_auto_unlock t1 locked d = false).
    { unfold UserDB.should_auto_unlock. cbn [User.locked_at User.set_lock locked].
      destruct (Z.ltb_spec 0 d); [|done].
      destruct (Z.leb_spec (d * 60) (t1 - t0)); [tauto|done]. }
    rewrite (lockout_check_still_locked t1 uid locked _ d) by done.
    cbn [fst snd]. do 2 eexists. split; [reflexivity|].
    cbn [statusCode error_response].
    split_and!; [done|tauto|].
    intros _. split; [done|].
    cbn [users settings_read with_settings]. exact Hlook1.
Qed.

End with_capabilities.

Lemma lock_then_correct_password_witness :
  let r :=
    logins sample_caps
      [ {| req_now := 2000; req_ip := "198.51.100.7";
           req_email := "erin@example.com"; req_password := "guess" |};
        {| req_now := 2060; req_ip := "198.51.100.7";
           req_email := "erin@example.com"; req_password := "tr0ub4dor" |} ]
      sample_world in
  ∃ resp1 resp2,
    r.2 = [resp1; resp2]
    ∧ statusCode resp1 = 403
    ∧ (0 < 30 ∧ 30 * 60 ≤ 2060 - 2000 →
       statusCode resp2 = 200
       ∧ users r.1 !! "u-erin" =
           Some (User.set_failed 0
                   (User.set_lock false (Some 2000)
                      (User.set_lock true (Some 2000)
                         (User.set_failed (4 + 1) erin)))))
    ∧ (¬ (0 < 30 ∧ 30 * 60 ≤ 2060 - 2000) →
       statusCode resp2 = 403
       ∧ users r.1 !! "u-erin" =
           Some (User.set_lock true (Some 2000) (User.set_failed (4 + 1) erin))).
Proof.
  apply (lock_then_correct_password sample_caps 2000 2060 "198.51.100.7"
           "erin@example.com" "guess" "tr0ub4dor" sample_world "u-erin" erin
           5 30 sample_users_unique);
    reflexivity || lia.
Defined.

Lemma repeated_wrong_passwords_count_down_witness :
  let q t := {| req_now := t; req_ip := "198.51.100.7";
                req_email := "alice@example.com"; req_password := "guess" |} in
  let r := logins sample_caps [q 2000; q 2001; q 2002] sample_world in
  r.2 = imap (λ i _,
                error_response
                  ("Invalid email or password. "
                   +:+ pretty (5 - (1 + Z.of_nat i + 1))
                   +:+ " attempts remaining.") 401 None None)
             [q 2000; q 2001; q 2002]
  ∧ users r.1 !! "u-alice" = Some (User.set_failed (1 + Z.of_nat 3) alice)
  ∧ login_attempts r.1 =
      ([] ++
       ((λ q, {| attempt_ip := req_ip q; attempt_email := "alice@example.com";
                 attempt_success := false |}) <$> [q 2000; q 2001; q 2002]))%list.
Proof.
  intros q.
  apply (repeated_wrong_passwords_count_down sample_caps
           [q 2000; q 2001; q 2002] "alice@example.com" sample_world
           "u-alice" alice 5 sample_users_unique eq_refl eq_refl eq_refl eq_refl).
  - repeat constructor.
  - reflexivity.
Defined.

End LoginMore.

(** ** The initialisation script *)

Module InitSettingsMore.
Import AppSettings AppSettingsFacts InitSettings Samples.

Local Instance key_order_total :
  Total (λ a b : string * value, Is_true (String.leb a.1 b.1)).
Proof.
  intros a b. destruct (String.leb_total a.1 b.1) as [H|H]; rewrite H; auto.
Qed.

(** [main] exits with status 1 and lists nothing when the table cannot be
    reached.  Otherwise it exits with status 0 and lists, one line each and
    in the order of their keys, exactly the settings [get_all_settings]
    answers after the initialisation whose key does not start with an
    underscore. *)
Theorem main_lists_public_settings_in_order (s : state) :
  (reachable s = false → main s = (s, 1, []))
  ∧ (reachable s = true →
     ∃ items : list (string * value),
       (main s).1.2 = 0
       ∧ (main s).2 =
           (λ kv : string * value, "  " +:+ kv.1 +:+ ": " +:+ py_str kv.2)
             <$> items
       ∧ Sorted (λ a b : string * value, Is_true (String.leb a.1 b.1)) items
       ∧ NoDup items.*1
       ∧ ∀ k v, (k, v) ∈ items ↔
           startswith_underscore k = false
           ∧ (get_all_settings (state_of (initialize_settings s))).2 !! k
             = Some v).
Proof.
  split.
  - intros Hr. unfold main, initialize_settings. by rewrite Hr.
  - intros Hr. unfold main.
    destruct (initialize_settings s) as [s1|s1] eqn:Hi.
    2:{ unfold initialize_settings in Hi. rewrite Hr in Hi.
        by destruct (settings_table s !! "_initialized"). }
    cbn [state_of].
    destruct (get_all_settings s1) as [s2 settings] eqn:Hg. cbn [fst snd].
    eexists. split_and!; [done|reflexivity|..].
    + apply (Sorted_merge_sort _).
    + unfold sorted_items. rewrite merge_sort_Permutation.
      apply NoDup_fst_map_to_list.
    + intros k v. unfold sorted_items. rewrite merge_sort_Permutation.
      rewrite elem_of_map_to_list, map_lookup_filter_Some. cbn [fst].
      destruct (startswith_underscore k); cbn; intuition (auto; congruence).
Qed.

Lemma main_lists_public_settings_in_order_witness :
  ∃ items : list (string * value),
    (main fresh_state).1.2 = 0
    ∧ (main fresh_state).2 =
        (λ kv : string * value, "  " +:+ kv.1 +:+ ": " +:+ py_str kv.2)
          <$> items
    ∧ Sorted (λ a b : string * value, Is_true (String.leb a.1 b.1)) items
    ∧ NoDup items.*1
    ∧ ∀ k v, (k, v) ∈ items ↔
        startswith_underscore k = false
        ∧ (get_all_settings (state_of (initialize_settings fresh_state))).2 !! k
          = Some v.
Proof.
  apply (proj2 (main_lists_public_settings_in_order fresh_state)). reflexivity.
Defined.

(** On a fresh, reachable, empty table the script lists the eight public
    defaults. *)
Example main_on_fresh_table :
  (main fresh_state).2 =
  [ "  account_lockout_duration_minutes: 30";
    "  allow_adding_new_users: True";
    "  allow_public_signup: True";
    "  default_public_role: customer";
    "  email_verification_required: True";
    "  max_failed_login_attempts: 5";
    "  min_password_length: 4";
    "  require_otp_on_registration: True" ].
Proof. by vm_compute. Qed.

End InitSettingsMore.
